(** * PQAnalysis: [process_lines_with_atoms] (src/cpp/src/traj_file/process_lines.cpp)

    A shallow embedding of the trajectory line parser together with the
    parts of the C++ standard library it runs on, and the properties of
    its specification.

    Modelling choices, all taken from the source and from the library it
    is compiled against (libstdc++ on an LP64 GNU/Linux target, classic
    "C" locale, which is what a default [std::istringstream] carries):

    - [std::string] is a [list ascii]; [float] is IEEE-754 binary32,
      as a [spec_float] with precision 24 and [emax] 128;
    - [int] is a [Z]; signed overflow is undefined behaviour and the
      conversion of an [int] to [size_t] wraps modulo 2^64, both written
      out;
    - a call either returns, throws, or leaves defined behaviour
      ([outcome]); unchecked [operator[[]]] out of range and reading an
      uninitialised [float] are undefined behaviour;
    - an [std::istringstream] is its unread characters and its [eofbit]
      and [failbit] ([badbit] is never set on a string buffer);
    - memory allocation is assumed to succeed ([std::bad_alloc] is not
      modelled). *)

From Stdlib Require Import ZArith NArith Ascii String Bool Lia.
From Stdlib Require Import Floats.SpecFloat.
From stdpp Require Import base list.

Local Open Scope Z_scope.

(** Literal text of the examples: a [string] literal as a [std::string]. *)
Definition str (s : string) : list ascii := list_ascii_of_string s.

(* ===================================================================== *)
(** * The host library *)
(* ===================================================================== *)

Module Cxx.

(** ** Outcomes of a call *)

Inductive exception : Type :=
  | length_error (what : string)
  | runtime_error (what : string).

Inductive undefined : Type :=
  | subscript_out_of_range
  | signed_overflow
  | indeterminate_value.

Inductive outcome (A : Type) : Type :=
  | Returns (a : A)
  | Throws (e : exception)
  | Undefined (u : undefined).
Arguments Returns {A} a.
Arguments Throws {A} e.
Arguments Undefined {A} u.

Definition bind {A B : Type} (m : outcome A) (k : A -> outcome B) : outcome B :=
  match m with
  | Returns a => k a
  | Throws e => Throws e
  | Undefined u => Undefined u
  end.

#[global] Instance outcome_ret : MRet outcome := fun A a => Returns a.
#[global] Instance outcome_bind : MBind outcome := fun A B k m => bind m k.

(** ** [int] and [size_t] *)

Definition INT_MAX : Z := 2147483647.
Definition INT_MIN : Z := -2147483648.
Definition SIZE_MAX : Z := 18446744073709551615.
Definition PTRDIFF_MAX : Z := 9223372036854775807.

Definition in_int (n : Z) : bool := (INT_MIN <=? n) && (n <=? INT_MAX).

(** [a * b] on [int]: overflow is undefined. *)
Definition int_mul (a b : Z) : outcome Z :=
  if in_int (a * b) then Returns (a * b) else Undefined signed_overflow.

(** [a + b] on [int]. *)
Definition int_add (a b : Z) : outcome Z :=
  if in_int (a + b) then Returns (a + b) else Undefined signed_overflow.

(** Implicit conversion [int -> size_t]. *)
Definition size_t_of_int (n : Z) : Z := n mod (SIZE_MAX + 1).

(** ** [std::vector] *)

(** [sizeof(std::string)] and [sizeof(float)] on the target. *)
Definition sizeof_string : Z := 32.
Definition sizeof_float : Z := 4.

(** [vector::max_size()]: [PTRDIFF_MAX / sizeof(T)]. *)
Definition max_size (sizeof_T : Z) : Z := PTRDIFF_MAX / sizeof_T.

(** [std::vector<T> v(n)]: [n] value-initialised elements;
    [_S_check_init_len] throws [std::length_error] beyond [max_size()]. *)
Definition vector_ctor {A : Type} (sizeof_T : Z) (n : Z) (init : A)
  : outcome (list A) :=
  if max_size sizeof_T <? n
  then Throws (length_error "cannot create std::vector larger than max_size()")
  else Returns (replicate (Z.to_nat n) init).

(** [v[i]] read: no bounds check. *)
Definition subscript {A : Type} (v : list A) (i : Z) : outcome A :=
  if (0 <=? i) && (i <? Z.of_nat (length v))
  then match v !! Z.to_nat i with
       | Some a => Returns a
       | None => Undefined subscript_out_of_range
       end
  else Undefined subscript_out_of_range.

(** [v[i] = a]: no bounds check. *)
Definition assign {A : Type} (v : list A) (i : Z) (a : A) : outcome (list A) :=
  if (0 <=? i) && (i <? Z.of_nat (length v))
  then Returns (<[Z.to_nat i := a]> v)
  else Undefined subscript_out_of_range.

(** ** Characters *)

(** [std::isspace] in the "C" locale: space, \t, \n, \v, \f, \r. *)
Definition isspace (c : ascii) : bool :=
  let n := nat_of_ascii c in
  (n =? 32)%nat || ((9 <=? n)%nat && (n <=? 13)%nat).

Definition isdigit (c : ascii) : bool :=
  let n := nat_of_ascii c in (48 <=? n)%nat && (n <=? 57)%nat.

Definition digit_value (c : ascii) : N := N.of_nat (nat_of_ascii c - 48).

Definition is_char (a c : ascii) : bool := Ascii.eqb a c.

#[global] Arguments isspace : simpl never.
#[global] Arguments isdigit : simpl never.
#[global] Arguments is_char : simpl never.

(** ** [float]: IEEE-754 binary32 *)

Definition float : Type := spec_float.
Definition prec : Z := 24.
Definition emax : Z := 128.

Definition float_zero : float := S754_zero false.
(** [std::numeric_limits<float>::max()] *)
Definition FLT_MAX : float := S754_finite false 16777215 104.

Definition is_finite (v : float) : bool :=
  match v with
  | S754_zero _ | S754_finite _ _ _ => true
  | _ => false
  end.

(** A decimal number [(-1)^neg * mant * 10^exp10], exactly. *)
Record decimal : Type := Decimal { dneg : bool; dmant : N; dexp10 : Z }.

(** The binary32 value nearest to a decimal number (ties to even);
    [S754_infinity] on overflow, as [strtof] returns [HUGE_VALF]. *)
Definition round_decimal (d : decimal) : float :=
  match dmant d with
  | N0 => S754_zero (dneg d)
  | Npos m =>
      if 0 <=? dexp10 d
      then binary_round prec emax (dneg d) (m * Z.to_pos (10 ^ dexp10 d)) 0
      else
        let '(q, e, l) :=
          SFdiv_core_binary prec emax (Zpos m) 0 (10 ^ (- dexp10 d)) 0 in
        binary_round_aux prec emax (dneg d) q e l
  end.

(** ** [strtof] *)

(** An optional sign; [true] for a minus. *)
Definition scan_sign (s : list ascii) : bool * list ascii :=
  match s with
  | c :: s' =>
      if is_char "-" c then (true, s')
      else if is_char "+" c then (false, s')
      else (false, s)
  | [] => (false, [])
  end.

(** The longest run of decimal digits. *)
Fixpoint span_digits (s : list ascii) : list ascii * list ascii :=
  match s with
  | c :: s' =>
      if isdigit c
      then let '(ds, r) := span_digits s' in (c :: ds, r)
      else ([], s)
  | [] => ([], [])
  end.

(** The number a digit string denotes. *)
Definition digits_N (ds : list ascii) : N :=
  fold_left (fun acc c => (10 * acc + digit_value c)%N) ds 0%N.

Definition is_nil {A : Type} (l : list A) : bool :=
  match l with [] => true | _ => false end.

Definition is_exp_char (c : ascii) : bool := is_char "e" c || is_char "E" c.
#[global] Arguments is_exp_char : simpl never.

(** The radix character and the digits after it, when there is one. *)
Definition scan_fraction (s : list ascii) : list ascii * list ascii :=
  match s with
  | c :: s' => if is_char "." c then span_digits s' else ([], s)
  | [] => ([], [])
  end.

(** An exponent part: [e] or [E], an optional sign, a nonempty digit
    sequence; [None] when there is none to consume. *)
Definition scan_exponent (s : list ascii) : option (Z * list ascii) :=
  match s with
  | c :: s' =>
      if is_exp_char c
      then
        let '(eneg, s1) := scan_sign s' in
        let '(ed, s2) := span_digits s1 in
        if is_nil ed then None
        else
          let e := Z.of_N (digits_N ed) in
          Some (if eneg then - e else e, s2)
      else None
  | [] => None
  end.

(** The decimal subject sequence of [strtof]: an optional sign, a
    nonempty digit sequence optionally containing a radix character, and
    an optional exponent part.  Returns the number read and the unread
    rest, [None] when no conversion can be performed.

    [strtof] is only ever applied to the field [__xtrc] that
    [_M_extract_float] accumulates, over the characters [+-0123456789.e]:
    leading white space and the hexadecimal, INF and NAN forms cannot
    occur there and are not modelled. *)
Definition scan_decimal (s : list ascii) : option (decimal * list ascii) :=
  let '(neg, s1) := scan_sign s in
  let '(ip, s2) := span_digits s1 in
  let '(fp, s3) := scan_fraction s2 in
  if is_nil ip && is_nil fp then None
  else
    let m := digits_N (ip ++ fp) in
    let e0 := - Z.of_nat (length fp) in
    match scan_exponent s3 with
    | Some (e, s4) => Some (Decimal neg m (e0 + e), s4)
    | None => Some (Decimal neg m e0, s3)
    end.

(** [strtof(s, &endptr)]: the value and what [endptr] is left pointing
    at; the whole of [s] and zero when there is no conversion. *)
Definition strtof (s : list ascii) : float * list ascii :=
  match scan_decimal s with
  | Some (d, r) => (round_decimal d, r)
  | None => (float_zero, s)
  end.

(** ** [std::istringstream] *)

Record istringstream : Type := IStringStream {
  buf : list ascii;      (* the characters not yet read *)
  eofbit : bool;
  failbit : bool
}.

(** [std::istringstream iss(s)] *)
Definition istringstream_ctor (s : list ascii) : istringstream :=
  IStringStream s false false.

Definition good (s : istringstream) : bool := negb (eofbit s) && negb (failbit s).

(** [operator!], [fail()]: [failbit] or [badbit]. *)
Definition fail (s : istringstream) : bool := failbit s.

Fixpoint skipws (b : list ascii) : list ascii :=
  match b with
  | c :: b' => if isspace c then skipws b' else b
  | [] => []
  end.

(** [istream::sentry(in, false)] with [skipws] set: on a good stream,
    white space is skipped; reaching the end sets [eofbit] and
    [failbit].  A stream that is not good gets [failbit]. *)
Definition sentry (s : istringstream) : istringstream * bool :=
  if good s
  then
    match skipws (buf s) with
    | [] => (IStringStream [] true true, false)
    | b => (IStringStream b (eofbit s) (failbit s), true)
    end
  else (IStringStream (buf s) (eofbit s) true, false).

(** The characters up to the next white space. *)
Fixpoint take_word (b : list ascii) : list ascii * list ascii :=
  match b with
  | c :: b' =>
      if isspace c then ([], b)
      else let '(w, r) := take_word b' in (c :: w, r)
  | [] => ([], [])
  end.

(** [in >> str] for a [std::string] ([width()] is 0, and no line reaches
    [max_size()] characters): the string is replaced by the next word;
    [eofbit] when the buffer is exhausted, [failbit] when nothing was
    extracted.  When the sentry fails [str] is left as it was. *)
Definition extract_string (s : istringstream) (str : list ascii)
  : istringstream * list ascii :=
  let '(s, ok) := sentry s in
  if ok
  then
    let '(w, r) := take_word (buf s) in
    (IStringStream r (eofbit s || is_nil r) (failbit s || is_nil w), w)
  else (s, str).

(** *** [num_get::_M_extract_float] *)

(** "First check for sign." *)
Definition extract_sign (b : list ascii) : list ascii * list ascii :=
  match b with
  | c :: b' =>
      if is_char "+" c then (["+"%char], b')
      else if is_char "-" c then (["-"%char], b')
      else ([], b)
  | [] => ([], [])
  end.

(** "Next, look for leading zeros.": they are consumed, and stand in the
    field as a single [0]. *)
Fixpoint leading_zeros (b : list ascii) (found_mantissa : bool)
  : bool * list ascii :=
  match b with
  | c :: b' =>
      if is_char "." c then (found_mantissa, b)
      else if is_char "0" c then leading_zeros b' true
      else (found_mantissa, b)
  | [] => (found_mantissa, [])
  end.

(** "Only need acceptable digits for floating point numbers.": the loop
    of the "C" locale.  Returns what is appended to [__xtrc] and the
    characters left in the stream. *)
Fixpoint float_digits (b : list ascii) (found_mantissa found_dec found_sci : bool)
  : list ascii * list ascii :=
  match b with
  | [] => ([], [])
  | c :: b' =>
      if isdigit c then
        let '(x, r) := float_digits b' true found_dec found_sci in (c :: x, r)
      else if is_char "." c && negb found_dec && negb found_sci then
        let '(x, r) := float_digits b' found_mantissa true found_sci in
        ("."%char :: x, r)
      else if is_exp_char c && negb found_sci && found_mantissa then
        (* Scientific notation; remove optional plus or minus sign. *)
        match b' with
        | [] => (["e"%char], [])
        | c2 :: b'' =>
            if is_char "+" c2 || is_char "-" c2 then
              let '(x, r) := float_digits b'' found_mantissa found_dec true in
              ("e"%char :: c2 :: x, r)
            else
              let '(x, r) := float_digits b' found_mantissa found_dec true in
              ("e"%char :: x, r)
        end
      else ([], b)
  end.

Definition extract_float (b : list ascii) : list ascii * list ascii :=
  let '(sg, b1) := extract_sign b in
  let '(found_mantissa, b2) := leading_zeros b1 false in
  let '(x, r) := float_digits b2 found_mantissa false false in
  (sg ++ (if found_mantissa then ["0"%char] else []) ++ x, r).

(** [std::__convert_to_v(const char*, float&, ...)]: the value stored and
    whether [failbit] is raised (DR 23: on overflow the largest
    representable value and [failbit]). *)
Definition convert_to_v (xtrc : list ascii) : float * bool :=
  let '(v, sanity) := strtof xtrc in
  if (length sanity =? length xtrc)%nat || negb (is_nil sanity)
  then (float_zero, true)
  else
    match v with
    | S754_infinity false => (FLT_MAX, true)
    | S754_infinity true => (SFopp FLT_MAX, true)
    | _ => (v, false)
    end.

(** [in >> v] for a [float].  An uninitialised [float] is [None]; when
    the sentry fails [v] is left as it was. *)
Definition extract_floating (s : istringstream) (v : option float)
  : istringstream * option float :=
  let '(s, ok) := sentry s in
  if ok
  then
    let '(xtrc, r) := extract_float (buf s) in
    let '(x, err) := convert_to_v xtrc in
    (IStringStream r (eofbit s || is_nil r) (failbit s || err), Some x)
  else (s, v).

End Cxx.

(* ===================================================================== *)
(** * process_lines.cpp *)
(* ===================================================================== *)

Import Cxx.

(** A [float] variable is read: indeterminate when never assigned. *)
Definition load (v : option float) : outcome float :=
  match v with
  | Some x => Returns x
  | None => Undefined indeterminate_value
  end.

(** [iss >> atom >> x >> y >> z] on a fresh stream over [line], with
    [std::string atom; float x, y, z;] declared just before. *)
Definition extract_record (line : list ascii)
  : istringstream * list ascii * option float * option float * option float :=
  let iss := istringstream_ctor line in
  let '(iss, atom) := extract_string iss [] in
  let '(iss, x) := extract_floating iss None in
  let '(iss, y) := extract_floating iss None in
  let '(iss, z) := extract_floating iss None in
  (iss, atom, x, y, z).

(** The body of the [for] loop at index [i]. *)
Definition loop_body (input : list (list ascii)) (i : Z)
    (st : list (list ascii) * list float)
  : outcome (list (list ascii) * list float) :=
  let '(atoms, xyz) := st in
  line ← subscript input i;
  let '(iss, atom, x, y, z) := extract_record line in
  if fail iss
  then Throws (runtime_error "Could not parse line")
  else
    atoms ← assign atoms i atom;
    i3 ← int_mul i 3; k ← int_add i3 0; x ← load x; xyz ← assign xyz k x;
    i3 ← int_mul i 3; k ← int_add i3 1; y ← load y; xyz ← assign xyz k y;
    i3 ← int_mul i 3; k ← int_add i3 2; z ← load z; xyz ← assign xyz k z;
    Returns (atoms, xyz).

(** [for (int i = 0; i < n_atoms; i++)]: the body runs for
    [i = 0, ..., n_atoms - 1], that is [Z.to_nat n_atoms] times, and not
    at all when [n_atoms <= 0].  Here the loop is entered at [i] with
    [count] iterations to go ([i] stays below [n_atoms <= INT_MAX], so
    [i++] does not overflow). *)
Fixpoint for_loop (input : list (list ascii)) (count : nat) (i : Z)
    (st : list (list ascii) * list float)
  : outcome (list (list ascii) * list float) :=
  match count with
  | O => Returns st
  | S count' => st' ← loop_body input i st; for_loop input count' (i + 1) st'
  end.

Definition process_lines_with_atoms (input : list (list ascii)) (n_atoms : Z)
  : outcome (list (list ascii) * list float) :=
  atoms ← vector_ctor sizeof_string (size_t_of_int n_atoms) ([] : list ascii);
  n3 ← int_mul n_atoms 3;
  xyz ← vector_ctor sizeof_float (size_t_of_int n3) float_zero;
  for_loop input (Z.to_nat n_atoms) 0 (atoms, xyz).

(* ===================================================================== *)
(** * The words of the specification *)
(* ===================================================================== *)

(** "Token: a maximal run of non-whitespace characters within a line,
    delimited by whitespace." *)
Fixpoint tokens (s : list ascii) : list (list ascii) :=
  match s with
  | [] => []
  | c :: s' =>
      if isspace c then tokens s'
      else
        match s' with
        | [] => [[c]]
        | c' :: _ =>
            if isspace c' then [c] :: tokens s'
            else
              match tokens s' with
              | t :: ts => (c :: t) :: ts
              | [] => [[c]]
              end
        end
  end.

(** A token "interpreted as a floating-point number": it is, as a whole,
    a number in "standard decimal notation (optional sign, optional
    fractional part, optional exponent)" whose binary32 value is finite.
    [float_token_literal] below says so in terms of [literal]s. *)
Definition float_token (t : list ascii) : option float :=
  match scan_decimal t with
  | Some (d, []) =>
      let v := round_decimal d in if is_finite v then Some v else None
  | _ => None
  end.

(** The record a line denotes by its first four tokens. *)
Definition record_of_tokens (line : list ascii)
  : option (list ascii * float * float * float) :=
  match tokens line with
  | t0 :: t1 :: t2 :: t3 :: _ =>
      match float_token t1, float_token t2, float_token t3 with
      | Some x, Some y, Some z => Some (t0, x, y, z)
      | _, _, _ => None
      end
  | _ => None
  end.

(** "Expected shape is <label> <x> <y> <z>": a well-formed line. *)
Definition well_formed (line : list ascii) : bool :=
  match record_of_tokens line with Some _ => true | None => false end.

(** The line as a record, read the way the code reads it: [None] when
    [!(iss >> atom >> x >> y >> z)] holds. *)
Definition parse_line (line : list ascii)
  : option (list ascii * float * float * float) :=
  let '(iss, atom, x, y, z) := extract_record line in
  if fail iss then None
  else
    match x, y, z with
    | Some x, Some y, Some z => Some (atom, x, y, z)
    | _, _, _ => None
    end.

(** "A line with fewer than four tokens, or with a non-numeric
    second/third/fourth token." *)
Definition malformed (line : list ascii) : bool := negb (well_formed line).

(** A character that cannot continue a number: not a digit, not the
    decimal point, not an exponent marker. *)
Definition stop_char (c : ascii) : bool :=
  negb (isdigit c || is_char "." c || is_exp_char c).

Definition stops (r : list ascii) : bool :=
  match r with
  | [] => true
  | c :: _ => stop_char c
  end.

(** ** Decimal notation, generatively *)

Inductive sign : Type := NoSign | Plus | Minus.

Definition sign_chars (s : sign) : list ascii :=
  match s with
  | NoSign => []
  | Plus => ["+"%char]
  | Minus => ["-"%char]
  end.

Definition sign_neg (s : sign) : bool :=
  match s with Minus => true | _ => false end.

(** "Decimal digits, optional leading sign, optional decimal point,
    optional exponent marker with sign and digits." *)
Record literal : Type := Literal {
  l_sign : sign;
  l_int : list ascii;                          (* digits before the point *)
  l_frac : option (list ascii);                (* the point and the digits after it *)
  l_exp : option (bool * sign * list ascii)    (* upper case marker?, sign, digits *)
}.

Definition frac_digits (l : literal) : list ascii :=
  match l_frac l with Some fp => fp | None => [] end.

Definition frac_chars (l : literal) : list ascii :=
  match l_frac l with Some fp => "."%char :: fp | None => [] end.

Definition exp_chars (l : literal) : list ascii :=
  match l_exp l with
  | Some (upper, s, ed) => (if upper then "E"%char else "e"%char) :: sign_chars s ++ ed
  | None => []
  end.

Definition render (l : literal) : list ascii :=
  sign_chars (l_sign l) ++ l_int l ++ frac_chars l ++ exp_chars l.

Definition all_digits (ds : list ascii) : bool := forallb isdigit ds.

Definition exp_valid (l : literal) : bool :=
  match l_exp l with
  | Some (_, _, ed) => all_digits ed && negb (is_nil ed)
  | None => true
  end.

Definition valid (l : literal) : bool :=
  all_digits (l_int l) && all_digits (frac_digits l)
  && negb (is_nil (l_int l) && is_nil (frac_digits l))
  && exp_valid l.

Definition exp_value (l : literal) : Z :=
  match l_exp l with
  | Some (_, s, ed) =>
      if sign_neg s then - Z.of_N (digits_N ed) else Z.of_N (digits_N ed)
  | None => 0
  end.

Definition value (l : literal) : decimal :=
  Decimal (sign_neg (l_sign l)) (digits_N (l_int l ++ frac_digits l))
    (- Z.of_nat (length (frac_digits l)) + exp_value l).

(** What the next character is not. *)
Definition nondigit_head (r : list ascii) : Prop :=
  match r with [] => True | c :: _ => isdigit c = false end.

Definition nosign_head (r : list ascii) : Prop :=
  match r with
  | [] => True
  | c :: _ => is_char "+" c = false /\ is_char "-" c = false
  end.

(** What [_M_extract_float] makes of a literal: leading zeros of the
    integer part become one, the exponent marker is lower case. *)
Definition drop_zeros (ds : list ascii) : list ascii :=
  let '(found, r) := leading_zeros ds false in
  (if found then ["0"%char] else []) ++ r.

Definition normalize (l : literal) : literal :=
  Literal (l_sign l) (drop_zeros (l_int l)) (l_frac l)
    match l_exp l with
    | Some (_, s, ed) => Some (false, s, ed)
    | None => None
    end.

(** A stream that has read up to [b]: [eofbit] when nothing is left. *)
Definition stream (b : list ascii) : istringstream :=
  IStringStream b (is_nil b) false.

(** ** The call as a whole *)

Definition parse_failure : exception := runtime_error "Could not parse line".
Definition vector_too_long : exception :=
  length_error "cannot create std::vector larger than max_size()".

Definition record : Type := list ascii * float * float * float.

Definition label_of (r : record) : list ascii := let '(a, _, _, _) := r in a.
Definition coords_of (r : record) : list float := let '(_, x, y, z) := r in [x; y; z].

Definition labels_of (rs : list record) : list (list ascii) := map label_of rs.
Definition coords_all (rs : list record) : list float := flat_map coords_of rs.

(** The records of [count] lines from index [i] on, read in order. *)
Fixpoint collect (input : list (list ascii)) (count : nat) (i : nat)
  : outcome (list record) :=
  match count with
  | O => Returns []
  | S count' =>
      match input !! i with
      | None => Undefined subscript_out_of_range
      | Some line =>
          match parse_line line with
          | None => Throws parse_failure
          | Some r => rs ← collect input count' (S i); Returns (r :: rs)
          end
      end
  end.

(** ** Comparing two outcomes *)





(* ===================================================================== *)
(** * A line as its tokens *)
(* ===================================================================== *)

(** No white space in a word. *)
Definition nonspace (p : list ascii) : bool := forallb (fun c => negb (isspace c)) p.

(** The end of the buffer, or white space next. *)
Definition at_space (r : list ascii) : bool :=
  match r with
  | [] => true
  | c :: _ => isspace c
  end.

(** Where the stream stands in a line: [p], the unread rest of the token
    an extraction stopped in, and [ts], the tokens after it.  The next
    field starts in [p] when something of it is left, and with the next
    token otherwise. *)
Definition next_field (p : list ascii) (ts : list (list ascii))
  : option (list ascii * list (list ascii)) :=
  match p with
  | [] =>
      match ts with
      | [] => None
      | t :: ts' => Some (t, ts')
      end
  | _ :: _ => Some (p, ts)
  end.

(** One [>> float] at this position: the number, and the position after
    it; [None] when the extraction fails. *)
Definition read_float (p : list ascii) (ts : list (list ascii))
  : option (float * list ascii * list (list ascii)) :=
  match next_field p ts with
  | None => None
  | Some (t, ts') =>
      let '(xtrc, p') := extract_float t in
      let '(v, err) := convert_to_v xtrc in
      if err then None else Some (v, p', ts')
  end.

(** [>> atom >> x >> y >> z] over the tokens of a line. *)
Definition read_tokens (ts : list (list ascii)) : option record :=
  match ts with
  | [] => None
  | t0 :: ts0 =>
      match read_float [] ts0 with
      | None => None
      | Some (x, p1, ts1) =>
          match read_float p1 ts1 with
          | None => None
          | Some (y, p2, ts2) =>
              match read_float p2 ts2 with
              | None => None
              | Some (z, _, _) => Some (t0, x, y, z)
              end
          end
      end
  end.

(** The stream [s] stands at the position [p], [ts] of a line. *)
Definition stands_at (s : istringstream) (p : list ascii) (ts : list (list ascii)) : Prop :=
  failbit s = false
  /\ (eofbit s = true -> buf s = [])
  /\ nonspace p = true
  /\ exists r, buf s = p ++ r /\ at_space r = true /\ tokens r = ts.

(** One iteration of the loop on a line that was read as a record. *)
Definition store (i : Z) (r : record) (st : list (list ascii) * list float)
  : outcome (list (list ascii) * list float) :=
  let '(atoms, xyz) := st in
  let '(atom, x, y, z) := r in
  atoms ← assign atoms i atom;
  i3 ← int_mul i 3; k ← int_add i3 0; xyz ← assign xyz k x;
  i3 ← int_mul i 3; k ← int_add i3 1; xyz ← assign xyz k y;
  i3 ← int_mul i 3; k ← int_add i3 2; xyz ← assign xyz k z;
  Returns (atoms, xyz).

(** Two lines with the same first four tokens. *)
Definition same_fields (l1 l2 : list ascii) : Prop :=
  take 4 (tokens l1) = take 4 (tokens l2).

(** A sign comes first. *)
Definition signed (t : list ascii) : bool :=
  match t with
  | c :: _ => is_char "+" c || is_char "-" c
  | [] => false
  end.

(** A character that neither starts a number nor continues one: no
    digit, no sign, no decimal point, no exponent marker. *)
Definition no_number_char (c : ascii) : bool :=
  stop_char c && negb (is_char "+" c) && negb (is_char "-" c).

(* ===================================================================== *)
(** * A number, and a number and more *)
(* ===================================================================== *)

(** A token "interpreted as a floating-point number". *)
Definition is_float (t : list ascii) : bool :=
  match float_token t with Some _ => true | None => false end.

(** A token that begins with a float: one of its prefixes is one. *)
Definition starts_with_float (t : list ascii) : bool :=
  existsb (fun k => is_float (take k t)) (seq 0 (S (length t))).

(** The first of the tokens that is no float. *)
Fixpoint first_nonfloat (ts : list (list ascii)) : option (list ascii) :=
  match ts with
  | [] => None
  | t :: ts' => if is_float t then first_nonfloat ts' else Some t
  end.

(** A line with a token that holds a number and more: the first of its
    second, third and fourth token that is no float begins with one
    ([C 1-2-3], [C 1 2 3.0abc], [C 1.5.5 2], [C 1e 2 3]). *)
Definition number_and_more (line : list ascii) : bool :=
  match first_nonfloat (take 3 (drop 1 (tokens line))) with
  | Some t => starts_with_float t
  | None => false
  end.

(** The exponent marker as [_M_extract_float] stores it in [__xtrc]. *)
Definition lower_marker (c : ascii) : ascii :=
  if is_exp_char c then "e"%char else c.

(* ===================================================================== *)
(** * Calls within defined behaviour *)
(* ===================================================================== *)



(* ===================================================================== *)
(** * Tactics *)
(* ===================================================================== *)

(** Case analysis on the eight bits of a character. *)
Ltac ascii_cases c := destruct c as [[] [] [] [] [] [] [] []].

(** Evaluation of the character tests at literal characters. *)
Ltac char_eval :=
  repeat match goal with
  | |- context [isdigit (Ascii ?a ?b ?c ?d ?e ?f ?g ?h)] =>
      let v := eval vm_compute in (isdigit (Ascii a b c d e f g h)) in
      change (isdigit (Ascii a b c d e f g h)) with v
  | |- context [isspace (Ascii ?a ?b ?c ?d ?e ?f ?g ?h)] =>
      let v := eval vm_compute in (isspace (Ascii a b c d e f g h)) in
      change (isspace (Ascii a b c d e f g h)) with v
  | |- context [is_exp_char (Ascii ?a ?b ?c ?d ?e ?f ?g ?h)] =>
      let v := eval vm_compute in (is_exp_char (Ascii a b c d e f g h)) in
      change (is_exp_char (Ascii a b c d e f g h)) with v
  | |- context [is_char ?x (Ascii ?a ?b ?c ?d ?e ?f ?g ?h)] =>
      is_ground x;
      let v := eval vm_compute in (is_char x (Ascii a b c d e f g h)) in
      change (is_char x (Ascii a b c d e f g h)) with v
  end.

(* ===================================================================== *)
(** * The host library at work *)
(* ===================================================================== *)

(** What [_M_extract_float] accumulates and what it leaves in the
    stream. *)
Example extract_float_plain : extract_float (str "3.0abc") = (str "3.0", str "abc").
Proof. reflexivity. Qed.

Example extract_float_zeros : extract_float (str "007") = (str "07", []).
Proof. reflexivity. Qed.

Example extract_float_marker : extract_float (str "+.5E+1 x") = (str "+.5e+1", str " x").
Proof. reflexivity. Qed.

Example extract_float_second_point : extract_float (str "1.2.3") = (str "1.2", str ".3").
Proof. reflexivity. Qed.

Example extract_float_second_sign : extract_float (str "1-2-3") = (str "1", str "-2-3").
Proof. reflexivity. Qed.

Example extract_float_bare_marker : extract_float (str "1e") = (str "1e", []).
Proof. reflexivity. Qed.

Example extract_float_no_mantissa : extract_float (str ".e5") = (str ".", str "e5").
Proof. reflexivity. Qed.

Example extract_float_letters : extract_float (str "inf") = ([], str "inf").
Proof. reflexivity. Qed.

(** The conversion: to the nearest [float], ties to even; no conversion
    of a field that is not a number as a whole; [failbit] on overflow. *)
Example float_token_tenth : float_token (str "0.1") = Some (S754_finite false 13421773 (-27)).
Proof. vm_compute. reflexivity. Qed.

Example float_token_tie : float_token (str "16777217") = Some (S754_finite false 8388608 1).
Proof. vm_compute. reflexivity. Qed.

Example float_token_subnormal : float_token (str "1e-45") = Some (S754_finite false 1 (-149)).
Proof. vm_compute. reflexivity. Qed.

Example float_token_underflow : float_token (str "7e-46") = Some (S754_zero false).
Proof. vm_compute. reflexivity. Qed.

Example float_token_largest : float_token (str "3.4028235e38") = Some FLT_MAX.
Proof. vm_compute. reflexivity. Qed.

Example float_token_too_large : float_token (str "3.4028236e38") = None.
Proof. vm_compute. reflexivity. Qed.

Example convert_overflow : convert_to_v (str "1e40") = (FLT_MAX, true).
Proof. vm_compute. reflexivity. Qed.

Example convert_bare_marker : convert_to_v (str "1e") = (float_zero, true).
Proof. vm_compute. reflexivity. Qed.

Example tokens_of_a_line :
  tokens (str "  C  007  +.5E+1 -0. ") = [str "C"; str "007"; str "+.5E+1"; str "-0."].
Proof. reflexivity. Qed.

(* ===================================================================== *)
(** * Characters *)
(* ===================================================================== *)


Lemma isspace_stop c : isspace c = true -> stop_char c = true.
Proof. ascii_cases c; vm_compute; congruence. Qed.

Lemma isdigit_not_stop c : isdigit c = true -> stop_char c = false.
Proof. ascii_cases c; vm_compute; congruence. Qed.

Lemma isdigit_chars c :
  isdigit c = true ->
  is_char "+" c = false /\ is_char "-" c = false /\ is_char "." c = false
  /\ is_exp_char c = false /\ isspace c = false.
Proof. ascii_cases c; vm_compute; intuition congruence. Qed.

Lemma stop_char_inv c :
  stop_char c = true ->
  isdigit c = false /\ is_char "." c = false /\ is_exp_char c = false.
Proof.
  unfold stop_char. destruct (isdigit c), (is_char "." c), (is_exp_char c);
    simpl; intuition congruence.
Qed.

Lemma is_char_eq a c : is_char a c = true -> c = a.
Proof. unfold is_char. intros H. apply Ascii.eqb_eq in H. congruence. Qed.

(* ===================================================================== *)
(** * Digit runs and signs *)
(* ===================================================================== *)

Lemma stops_nondigit r : stops r = true -> nondigit_head r.
Proof. destruct r as [|c r]; simpl; [done|]. intros H. by apply stop_char_inv in H as [? _]. Qed.

Lemma span_digits_app ds r :
  all_digits ds = true -> nondigit_head r -> span_digits (ds ++ r) = (ds, r).
Proof.
  induction ds as [|d ds IH]; simpl.
  - destruct r as [|c r]; simpl; [done|]. by intros _ ->.
  - intros [Hd Hds]%andb_true_iff Hr. by rewrite Hd, IH.
Qed.

Lemma span_digits_inv s ds r :
  span_digits s = (ds, r) ->
  s = ds ++ r /\ all_digits ds = true /\ nondigit_head r.
Proof.
  revert ds r. induction s as [|c s IH]; simpl; intros ds r H.
  - by injection H as <- <-.
  - destruct (isdigit c) eqn:Hc.
    + destruct (span_digits s) as [ds' r'] eqn:Hs. injection H as <- <-.
      destruct (IH _ _ eq_refl) as (-> & Hds & Hr).
      simpl. by rewrite Hc, Hds.
    + injection H as <- <-. simpl. by rewrite Hc.
Qed.

Lemma scan_sign_app sg s :
  nosign_head s -> scan_sign (sign_chars sg ++ s) = (sign_neg sg, s).
Proof.
  destruct sg; simpl; try done.
  destruct s as [|c s]; simpl; [done|]. by intros [-> ->].
Qed.

Lemma scan_sign_inv s neg s1 :
  scan_sign s = (neg, s1) ->
  exists sg, s = sign_chars sg ++ s1 /\ neg = sign_neg sg.
Proof.
  destruct s as [|c s]; simpl.
  - intros H; injection H as <- <-. by exists NoSign.
  - destruct (is_char "-" c) eqn:Hm.
    + intros H; injection H as <- <-. apply is_char_eq in Hm as ->. by exists Minus.
    + destruct (is_char "+" c) eqn:Hp; intros H; injection H as <- <-.
      * apply is_char_eq in Hp as ->. by exists Plus.
      * by exists NoSign.
Qed.

Lemma extract_sign_app sg s :
  nosign_head s -> extract_sign (sign_chars sg ++ s) = (sign_chars sg, s).
Proof.
  destruct sg; simpl; try done.
  destruct s as [|c s]; simpl; [done|]. by intros [-> ->].
Qed.

Lemma all_digits_app ds1 ds2 :
  all_digits (ds1 ++ ds2) = all_digits ds1 && all_digits ds2.
Proof. apply forallb_app. Qed.

Lemma digit_head_nosign ds s :
  all_digits ds = true -> ds <> [] -> nosign_head (ds ++ s).
Proof.
  destruct ds as [|d ds]; [done|]. simpl. intros [Hd _]%andb_true_iff _.
  apply isdigit_chars in Hd. tauto.
Qed.

(** The number a digit string denotes ignores leading zeros. *)
Lemma digits_N_zero ds : digits_N ("0"%char :: ds) = digits_N ds.
Proof. reflexivity. Qed.

Lemma leading_zeros_spec ds f :
  all_digits ds = true ->
  exists found ds',
    leading_zeros ds f = (found, ds')
    /\ all_digits ds' = true
    /\ (forall r, nondigit_head r -> leading_zeros (ds ++ r) f = (found, ds' ++ r))
    /\ (forall tl, digits_N (ds ++ tl) = digits_N (ds' ++ tl))
    /\ (found || negb (is_nil ds') = f || negb (is_nil ds)).
Proof.
  revert f. induction ds as [|d ds IH]; intros f; simpl.
  - intros _. exists f, []. repeat split; try done.
    + intros [|c r]; simpl; [done|]. intros Hc.
      destruct (is_char "." c) eqn:Hdot; [done|].
      destruct (is_char "0" c) eqn:Hz; [|done].
      apply is_char_eq in Hz as ->. discriminate Hc.
  - intros [Hd Hds]%andb_true_iff.
    destruct (isdigit_chars _ Hd) as (_ & _ & Hdot & _). rewrite Hdot.
    destruct (is_char "0" d) eqn:Hz.
    + apply is_char_eq in Hz as ->.
      destruct (IH true Hds) as (found & ds' & E & Hd' & Happ & Hval & Hf).
      exists found, ds'. do 3 (split; [done|]). split.
      * intros tl. simpl. rewrite digits_N_zero. apply Hval.
      * rewrite Hf. simpl. by rewrite orb_true_r.
    + exists f, (d :: ds). split; [done|]. split; [|split; [|done]].
      * simpl. by rewrite Hd, Hds.
      * by intros r _.
Qed.


(* ===================================================================== *)
(** * [_M_extract_float] on a number in decimal notation *)
(* ===================================================================== *)

Lemma float_digits_run ds r fm fd fs :
  all_digits ds = true ->
  float_digits (ds ++ r) fm fd fs =
  let '(x, r') := float_digits r (fm || negb (is_nil ds)) fd fs in (ds ++ x, r').
Proof.
  revert fm. induction ds as [|d ds IH]; intros fm; simpl.
  - intros _. rewrite orb_false_r. by destruct (float_digits r fm fd fs).
  - intros [Hd Hds]%andb_true_iff. rewrite Hd, (IH true Hds), orb_true_r. simpl.
    by destruct (float_digits r true fd fs).
Qed.

Lemma float_digits_stop r fm fd fs :
  stops r = true -> float_digits r fm fd fs = ([], r).
Proof.
  destruct r as [|c r]; simpl; [done|]. intros H.
  apply stop_char_inv in H as (-> & -> & ->). done.
Qed.

Lemma exp_char_chars c :
  is_exp_char c = true -> isdigit c = false /\ is_char "." c = false.
Proof. ascii_cases c; vm_compute; intuition congruence. Qed.

Lemma float_digits_marker c b' fd :
  is_exp_char c = true ->
  float_digits (c :: b') true fd false =
  match b' with
  | [] => (["e"%char], [])
  | c2 :: b'' =>
      if is_char "+" c2 || is_char "-" c2
      then let '(x, r) := float_digits b'' true fd true in ("e"%char :: c2 :: x, r)
      else let '(x, r) := float_digits b' true fd true in ("e"%char :: x, r)
  end.
Proof.
  intros Hc. destruct (exp_char_chars _ Hc) as [Hd Hdot].
  cbn [float_digits]. by rewrite Hd, Hdot, Hc.
Qed.

Lemma float_digits_tail l r fd :
  exp_valid l = true -> stops r = true ->
  float_digits (exp_chars l ++ r) true fd false = (exp_chars (normalize l), r).
Proof.
  unfold exp_valid, exp_chars, normalize.
  destruct l as [sg ip fr [[[up s] ed]|]]; cbn [l_exp].
  - intros [Hed Hne]%andb_true_iff Hr.
    assert (Hrun : float_digits (ed ++ r) true fd true = (ed, r)).
    { rewrite float_digits_run, float_digits_stop by done. by rewrite app_nil_r. }
    destruct ed as [|d ed]; [done|].
    assert (Hd : isdigit d = true).
    { cbn in Hed. by apply andb_true_iff in Hed as [? _]. }
    destruct (isdigit_chars _ Hd) as (Hp & Hm & _).
    rewrite <- app_comm_cons, float_digits_marker by (by destruct up).
    destruct s; cbn [sign_chars app]; char_eval; rewrite ?Hp, ?Hm; cbn [orb];
      by (change (d :: ed ++ r) with ((d :: ed) ++ r); rewrite Hrun).
  - intros _ Hr. by apply float_digits_stop.
Qed.

Lemma float_digits_point b' fm :
  float_digits ("."%char :: b') fm false false =
  let '(x, r) := float_digits b' fm true false in ("."%char :: x, r).
Proof. reflexivity. Qed.

Lemma float_digits_mantissa l ds found r :
  all_digits ds = true -> all_digits (frac_digits l) = true ->
  found || negb (is_nil ds) || negb (is_nil (frac_digits l)) = true ->
  exp_valid l = true -> stops r = true ->
  float_digits (ds ++ frac_chars l ++ exp_chars l ++ r) found false false =
  (ds ++ frac_chars l ++ exp_chars (normalize l), r).
Proof.
  intros Hds Hfp Hm He Hr. rewrite float_digits_run by done.
  unfold frac_chars, frac_digits in *. destruct (l_frac l) as [fp|].
  - rewrite <- app_comm_cons, float_digits_point, float_digits_run by done.
    by rewrite Hm, float_digits_tail.
  - cbn [app is_nil negb] in *. rewrite orb_false_r in Hm.
    by rewrite Hm, float_digits_tail.
Qed.

(* ===================================================================== *)
(** * Decimal notation: what is valid, rendered and scanned *)
(* ===================================================================== *)

Lemma valid_inv l :
  valid l = true ->
  all_digits (l_int l) = true /\ all_digits (frac_digits l) = true
  /\ is_nil (l_int l) && is_nil (frac_digits l) = false
  /\ exp_valid l = true.
Proof.
  unfold valid. rewrite !andb_true_iff, negb_true_iff. tauto.
Qed.

Lemma mantissa_nosign l s :
  valid l = true -> nosign_head (l_int l ++ frac_chars l ++ s).
Proof.
  intros (Hip & _ & Hne & _)%valid_inv.
  destruct (l_int l) as [|d ip] eqn:Eip.
  - unfold frac_chars, frac_digits in *. destruct (l_frac l) as [fp|]; [|done].
    cbn. by char_eval.
  - by apply digit_head_nosign.
Qed.

Lemma exp_tail_head l r :
  stops r = true -> stops (exp_chars l ++ r) = true \/ exists c s, exp_chars l ++ r = c :: s /\ is_exp_char c = true.
Proof.
  intros Hr. unfold exp_chars. destruct (l_exp l) as [[[up s] ed]|]; [right|by left].
  eexists _, _. split; [by rewrite <- app_comm_cons|]. by destruct up.
Qed.

Lemma exp_tail_nondigit l r : stops r = true -> nondigit_head (exp_chars l ++ r).
Proof.
  intros Hr. destruct (exp_tail_head l r Hr) as [H|(c & s & -> & H)].
  - by apply stops_nondigit.
  - by apply exp_char_chars in H as [? _].
Qed.

Lemma frac_tail_nondigit l r :
  stops r = true -> nondigit_head (frac_chars l ++ exp_chars l ++ r).
Proof.
  intros Hr. unfold frac_chars. destruct (l_frac l); [done|].
  by apply exp_tail_nondigit.
Qed.

Lemma scan_fraction_render l r :
  all_digits (frac_digits l) = true -> stops r = true ->
  scan_fraction (frac_chars l ++ exp_chars l ++ r) = (frac_digits l, exp_chars l ++ r).
Proof.
  intros Hfp Hr. unfold frac_chars, frac_digits in *. destruct (l_frac l) as [fp|].
  - rewrite <- app_comm_cons. cbn [scan_fraction]. char_eval.
    apply span_digits_app; [done|]. by apply exp_tail_nondigit.
  - cbn [app]. destruct (exp_tail_head l r Hr) as [H|(c & s & -> & H)].
    + destruct (exp_chars l ++ r) as [|c s]; [done|]. cbn in *.
      by apply stop_char_inv in H as (_ & -> & _).
    + cbn. by apply exp_char_chars in H as [_ ->].
Qed.

Lemma scan_exponent_stop r : stops r = true -> scan_exponent r = None.
Proof.
  destruct r as [|c r]; [done|]. cbn. intros H.
  by apply stop_char_inv in H as (_ & _ & ->).
Qed.

Lemma scan_exponent_render l r :
  exp_valid l = true -> stops r = true ->
  scan_exponent (exp_chars l ++ r) =
  match l_exp l with
  | Some _ => Some (exp_value l, r)
  | None => None
  end.
Proof.
  unfold exp_valid, exp_chars, exp_value.
  destruct (l_exp l) as [[[up s] ed]|]; [|intros _; apply scan_exponent_stop].
  intros [Hed Hne]%andb_true_iff Hr. rewrite <- app_comm_cons.
  cbn [scan_exponent]. replace (is_exp_char _) with true by (by destruct up).
  rewrite <- app_assoc, scan_sign_app.
  - rewrite span_digits_app by (by try apply stops_nondigit).
    by destruct ed.
  - apply digit_head_nosign; [done|]. by destruct ed.
Qed.

(** [strtof] reads a valid number up to a character that cannot continue it. *)
Lemma scan_render l r :
  valid l = true -> stops r = true ->
  scan_decimal (render l ++ r) = Some (value l, r).
Proof.
  intros Hv Hr. pose proof (valid_inv _ Hv) as (Hip & Hfp & Hne & He).
  unfold scan_decimal, render. rewrite <- !app_assoc.
  rewrite scan_sign_app by (by apply mantissa_nosign).
  rewrite span_digits_app by (by try apply frac_tail_nondigit).
  rewrite scan_fraction_render, Hne, scan_exponent_render by done.
  unfold value, exp_value, exp_chars. destruct (l_exp l) as [[[up s] ed]|]; [done|].
  by rewrite Z.add_0_r.
Qed.

(** What [_M_extract_float] accumulates for a valid number is the number
    again, normalised. *)
Lemma normalize_frac l : frac_chars (normalize l) = frac_chars l.
Proof. by destruct l. Qed.

Lemma extract_render l r :
  valid l = true -> stops r = true ->
  extract_float (render l ++ r) = (render (normalize l), r).
Proof.
  intros Hv Hr. pose proof (valid_inv _ Hv) as (Hip & Hfp & Hne & He).
  unfold extract_float, render. rewrite <- !app_assoc.
  rewrite extract_sign_app by (by apply mantissa_nosign).
  destruct (leading_zeros_spec (l_int l) false Hip)
    as (found & ds & E & Hds & Happ & _ & Hf).
  rewrite Happ by (by apply frac_tail_nondigit).
  rewrite float_digits_mantissa; try done.
  - rewrite normalize_frac. cbn [normalize l_sign l_int]. unfold drop_zeros.
    by rewrite E, <- !app_assoc.
  - rewrite Hf. cbn [orb].
    destruct (l_int l), (frac_digits l); done.
Qed.

Lemma normalize_valid l : valid l = true -> valid (normalize l) = true.
Proof.
  intros Hv. pose proof (valid_inv _ Hv) as (Hip & Hfp & Hne & He).
  destruct (leading_zeros_spec (l_int l) false Hip)
    as (found & ds & E & Hds & _ & _ & Hf).
  destruct l as [sg ip fr ex]. unfold valid, exp_valid, frac_digits, drop_zeros in *.
  cbn [normalize l_int l_frac l_exp] in *. unfold drop_zeros. rewrite E.
  rewrite all_digits_app, Hds, Hfp.
  assert (Hz : all_digits (if found then ["0"%char] else []) = true)
    by (by destruct found).
  rewrite Hz. cbn [andb]. apply andb_true_iff. split.
  - apply negb_true_iff. cbn [orb] in Hf.
    destruct found, ds, ip; cbn in *; try done.
  - by destruct ex as [[[up s] ed]|].
Qed.

Lemma normalize_value l : valid l = true -> value (normalize l) = value l.
Proof.
  intros Hv. pose proof (valid_inv _ Hv) as (Hip & _).
  destruct (leading_zeros_spec (l_int l) false Hip)
    as (found & ds & E & _ & _ & Hval & _).
  destruct l as [sg ip fr ex]. unfold value, exp_value, frac_digits, drop_zeros in *.
  cbn [normalize l_sign l_int l_frac l_exp] in *. unfold drop_zeros. rewrite E.
  f_equal.
  - rewrite Hval, <- app_assoc. by destruct found.
  - by destruct ex as [[[up s] ed]|].
Qed.

Lemma scan_fraction_inv s fp s3 :
  scan_fraction s = (fp, s3) ->
  exists fr : option (list ascii),
    s = match fr with Some f => "."%char :: f | None => [] end ++ s3
    /\ fp = match fr with Some f => f | None => [] end
    /\ all_digits fp = true.
Proof.
  destruct s as [|c s]; cbn [scan_fraction].
  - intros H; injection H as <- <-. by exists None.
  - destruct (is_char "." c) eqn:Hc.
    + intros (-> & Hfp & _)%span_digits_inv. apply is_char_eq in Hc as ->.
      by exists (Some fp).
    + intros H; injection H as <- <-. by exists None.
Qed.

Lemma is_exp_char_inv c :
  is_exp_char c = true -> c = if is_char "E" c then "E"%char else "e"%char.
Proof. ascii_cases c; vm_compute; congruence. Qed.

Lemma scan_exponent_inv s e r :
  scan_exponent s = Some (e, r) ->
  exists up sg ed,
    s = (if up : bool then "E"%char else "e"%char) :: sign_chars sg ++ ed ++ r
    /\ all_digits ed = true /\ is_nil ed = false
    /\ e = if sign_neg sg then - Z.of_N (digits_N ed) else Z.of_N (digits_N ed).
Proof.
  destruct s as [|c s]; cbn [scan_exponent]; [done|].
  destruct (is_exp_char c) eqn:Hc; [|done].
  destruct (scan_sign s) as [eneg s1] eqn:Hs.
  destruct (span_digits s1) as [ed s2] eqn:Hd.
  destruct (is_nil ed) eqn:Hn; [done|]. intros H; injection H as <- <-.
  apply scan_sign_inv in Hs as (sg & -> & ->).
  apply span_digits_inv in Hd as (-> & Hed & _).
  exists (is_char "E" c), sg, ed. split; [|done].
  f_equal. by apply is_exp_char_inv.
Qed.

(** Whatever [strtof] consumes as a whole is a valid number. *)
Lemma scan_complete t d :
  scan_decimal t = Some (d, []) ->
  exists l, valid l = true /\ render l = t /\ value l = d.
Proof.
  unfold scan_decimal.
  destruct (scan_sign t) as [neg s1] eqn:Hs.
  destruct (span_digits s1) as [ip s2] eqn:Hip.
  destruct (scan_fraction s2) as [fp s3] eqn:Hfp.
  destruct (is_nil ip && is_nil fp) eqn:Hne; [done|].
  apply scan_sign_inv in Hs as (sg & -> & ->).
  apply span_digits_inv in Hip as (-> & Hipd & _).
  apply scan_fraction_inv in Hfp as (fr & -> & -> & Hfpd).
  destruct (scan_exponent s3) as [[e s4]|] eqn:He.
  - intros H; injection H as <- ->.
    apply scan_exponent_inv in He as (up & esg & ed & -> & Hed & Hn & ->).
    exists (Literal sg ip fr (Some (up, esg, ed))).
    unfold valid, exp_valid, render, value, exp_value, frac_digits, frac_chars, exp_chars.
    cbn [l_sign l_int l_frac l_exp].
    rewrite Hipd, Hfpd, Hne, Hed, Hn, app_nil_r. done.
  - intros H; injection H as <- ->.
    exists (Literal sg ip fr None).
    unfold valid, exp_valid, render, value, exp_value, frac_digits, frac_chars, exp_chars.
    cbn [l_sign l_int l_frac l_exp].
    rewrite Hipd, Hfpd, Hne, Z.add_0_r, !app_nil_r. done.
Qed.

(** ** The extraction of a float token *)

Lemma render_nonempty l : valid l = true -> is_nil (render l) = false.
Proof.
  intros (_ & _ & Hne & _)%valid_inv. unfold render, frac_chars, frac_digits in *.
  destruct (l_sign l), (l_int l), (l_frac l) as [[|]|]; done.
Qed.

Lemma float_token_inv t v :
  float_token t = Some v ->
  exists d, scan_decimal t = Some (d, []) /\ round_decimal d = v /\ is_finite v = true.
Proof.
  unfold float_token. destruct (scan_decimal t) as [[d [|c r]]|]; try done.
  destruct (is_finite (round_decimal d)) eqn:Hf; [|done].
  intros H; injection H as <-. by exists d.
Qed.

(** A float token is a valid number in decimal notation whose value is
    finite, and nothing else. *)
Lemma float_token_literal t v :
  float_token t = Some v <->
  exists l, valid l = true /\ render l = t
            /\ round_decimal (value l) = v /\ is_finite v = true.
Proof.
  split.
  - intros (d & Hs & Hv & Hf)%float_token_inv.
    apply scan_complete in Hs as (l & Hl & <- & <-). by exists l.
  - intros (l & Hl & <- & <- & Hf). unfold float_token.
    rewrite <- (app_nil_r (render l)), scan_render by done. by rewrite Hf.
Qed.

Lemma convert_finite xtrc d :
  scan_decimal xtrc = Some (d, []) -> is_nil xtrc = false ->
  is_finite (round_decimal d) = true ->
  convert_to_v xtrc = (round_decimal d, false).
Proof.
  intros Hs Hn Hf. unfold convert_to_v, strtof. rewrite Hs.
  destruct xtrc; [done|]. cbn.
  by destruct (round_decimal d) as [| [] | |].
Qed.

(** A float token in front of a character that cannot continue it is
    consumed whole, and converted to its value. *)
Lemma extract_float_token t v r :
  float_token t = Some v -> stops r = true ->
  exists xtrc, extract_float (t ++ r) = (xtrc, r) /\ convert_to_v xtrc = (v, false).
Proof.
  intros (d & Hs & <- & Hf)%float_token_inv Hr.
  apply scan_complete in Hs as (l & Hv & <- & <-).
  exists (render (normalize l)). split; [by apply extract_render|].
  rewrite <- normalize_value in * by done.
  apply convert_finite; [|by apply render_nonempty, normalize_valid|done].
  rewrite <- (app_nil_r (render _)). by apply scan_render; [apply normalize_valid|].
Qed.

(** What follows a float token decides nothing about it, and makes the
    longer token no float token. *)
Lemma float_token_junk t v c junk :
  float_token t = Some v -> stop_char c = true -> float_token (t ++ c :: junk) = None.
Proof.
  intros (d & Hs & _)%float_token_inv Hc.
  apply scan_complete in Hs as (l & Hv & <- & <-).
  unfold float_token. by rewrite scan_render.
Qed.

(* ===================================================================== *)
(** * Tokens and the stream *)
(* ===================================================================== *)

Lemma skipws_head s c b : skipws s = c :: b -> isspace c = false.
Proof.
  induction s as [|a s IH]; cbn [skipws]; [done|].
  destruct (isspace a) eqn:Ha; [done|]. intros H; injection H as <- _. done.
Qed.

Lemma take_word_inv b w r :
  take_word b = (w, r) -> b = w ++ r /\ stops r = true.
Proof.
  revert w r. induction b as [|c b IH]; cbn [take_word]; intros w r.
  - intros H; injection H as <- <-. done.
  - destruct (isspace c) eqn:Hc.
    + intros H; injection H as <- <-. split; [done|]. by apply isspace_stop.
    + destruct (take_word b) as [w' r'] eqn:Hb. intros H; injection H as <- <-.
      destruct (IH _ _ eq_refl) as [-> Hr]. done.
Qed.

(** The tokens of a line are its words, in order. *)
Lemma tokens_unfold s :
  tokens s =
  match skipws s with
  | [] => []
  | b => let '(w, r) := take_word b in w :: tokens r
  end.
Proof.
  induction s as [|c s IH]; [done|]. cbn [tokens skipws].
  destruct (isspace c) eqn:Hc; [done|]. cbn [take_word]. rewrite Hc.
  destruct s as [|c' s]; [done|].
  destruct (isspace c') eqn:Hc'.
  - cbn [take_word]. by rewrite Hc'.
  - rewrite IH. cbn [skipws]. rewrite Hc'.
    by destruct (take_word (c' :: s)).
Qed.

Lemma tokens_cons_inv s t ts :
  tokens s = t :: ts ->
  exists r,
    skipws s = t ++ r /\ is_nil t = false
    /\ take_word (skipws s) = (t, r) /\ stops r = true /\ tokens r = ts.
Proof.
  rewrite tokens_unfold. destruct (skipws s) as [|c b] eqn:Hs; [done|].
  destruct (take_word (c :: b)) as [w r] eqn:Hw. intros H; injection H as -> <-.
  destruct (take_word_inv _ _ _ Hw) as [E Hr]. exists r.
  repeat split; try done.
  cbn [take_word] in Hw. rewrite (skipws_head _ _ _ Hs) in Hw.
  destruct (take_word b). by injection Hw as <- _.
Qed.

Lemma tokens_nonempty s t ts : tokens s = t :: ts -> is_nil s = false.
Proof. by destruct s. Qed.

Lemma sentry_stream b t ts :
  tokens b = t :: ts ->
  sentry (stream b) = (IStringStream (skipws b) false false, true).
Proof.
  intros H. pose proof (tokens_nonempty _ _ _ H) as Hn.
  apply tokens_cons_inv in H as (r & E & Hne & _).
  unfold sentry, stream, good. cbn. rewrite Hn, E. cbn.
  by destruct t.
Qed.

Lemma extract_string_stream b t ts v :
  tokens b = t :: ts ->
  exists r, extract_string (stream b) v = (stream r, t) /\ tokens r = ts.
Proof.
  intros H. unfold extract_string. rewrite (sentry_stream _ _ _ H).
  apply tokens_cons_inv in H as (r & E & Hne & Hw & _ & Ht).
  exists r. split; [|done]. cbn. rewrite Hw. unfold stream. cbn.
  by rewrite Hne.
Qed.

(** The next token starts with a float token [t], followed by [junk]
    that cannot continue it. *)
Lemma extract_floating_stream b t junk ts x v :
  tokens b = (t ++ junk) :: ts -> float_token t = Some x -> stops junk = true ->
  exists r,
    extract_floating (stream b) v = (stream (junk ++ r), Some x)
    /\ (is_nil junk = true -> tokens r = ts).
Proof.
  intros H Hx Hj. unfold extract_floating. rewrite (sentry_stream _ _ _ H).
  apply tokens_cons_inv in H as (r & E & _ & _ & Hr & Ht).
  exists r. split; [|done]. cbn [buf eofbit failbit orb].
  rewrite E, <- app_assoc.
  destruct (extract_float_token t x (junk ++ r) Hx) as (xtrc & -> & ->).
  { by destruct junk. }
  done.
Qed.

(* ===================================================================== *)
(** * One line *)
(* ===================================================================== *)

(** A line whose first token is followed by three float tokens, the last
    of them possibly with trailing characters that cannot continue it,
    is read as these four fields. *)
Lemma extract_record_tokens line t0 t1 t2 t3 junk more x y z :
  tokens line = t0 :: t1 :: t2 :: (t3 ++ junk) :: more ->
  float_token t1 = Some x -> float_token t2 = Some y -> float_token t3 = Some z ->
  stops junk = true ->
  exists iss,
    extract_record line = (iss, t0, Some x, Some y, Some z) /\ fail iss = false.
Proof.
  intros Ht Hx Hy Hz Hj. unfold extract_record.
  replace (istringstream_ctor line) with (stream line)
    by (unfold stream; by rewrite (tokens_nonempty _ _ _ Ht)).
  destruct (extract_string_stream line _ _ [] Ht) as (r0 & -> & Ht0).
  rewrite <- (app_nil_r t1) in Ht0.
  destruct (extract_floating_stream r0 _ _ _ _ None Ht0 Hx eq_refl) as (r1 & -> & Ht1).
  specialize (Ht1 eq_refl). cbn [app]. rewrite <- (app_nil_r t2) in Ht1.
  destruct (extract_floating_stream r1 _ _ _ _ None Ht1 Hy eq_refl) as (r2 & -> & Ht2).
  specialize (Ht2 eq_refl). cbn [app].
  destruct (extract_floating_stream r2 _ _ _ _ None Ht2 Hz Hj) as (r3 & -> & _).
  by eexists.
Qed.

Lemma parse_line_tokens line t0 t1 t2 t3 junk more x y z :
  tokens line = t0 :: t1 :: t2 :: (t3 ++ junk) :: more ->
  float_token t1 = Some x -> float_token t2 = Some y -> float_token t3 = Some z ->
  stops junk = true ->
  parse_line line = Some (t0, x, y, z).
Proof.
  intros Ht Hx Hy Hz Hj. unfold parse_line.
  destruct (extract_record_tokens _ _ _ _ _ _ _ _ _ _ Ht Hx Hy Hz Hj) as (iss & -> & ->).
  done.
Qed.

(** The code reads a well-formed line as the record of its tokens. *)
Lemma parse_line_record line r :
  record_of_tokens line = Some r -> parse_line line = Some r.
Proof.
  unfold record_of_tokens.
  destruct (tokens line) as [|t0 [|t1 [|t2 [|t3 more]]]] eqn:Ht; try done.
  destruct (float_token t1) as [x|] eqn:Hx; [|done].
  destruct (float_token t2) as [y|] eqn:Hy; [|done].
  destruct (float_token t3) as [z|] eqn:Hz; [|done].
  intros H; injection H as <-. rewrite <- (app_nil_r t3) in Ht.
  by eapply parse_line_tokens.
Qed.

Lemma well_formed_record line :
  well_formed line = true -> exists r, record_of_tokens line = Some r.
Proof. unfold well_formed. destruct (record_of_tokens line); [by eexists|done]. Qed.

(** [failbit] stays, and a [float] that was not assigned means failure. *)
Lemma extract_floating_fail s v s' v' :
  extract_floating s v = (s', v') ->
  (failbit s = true -> failbit s' = true) /\ (v' = None -> failbit s' = true).
Proof.
  unfold extract_floating, sentry, good.
  destruct (failbit s) eqn:Hf.
  - rewrite andb_false_r. intros H; injection H as <- <-. done.
  - destruct (eofbit s); cbn [negb andb].
    + intros H; injection H as <- <-. done.
    + destruct (skipws (buf s)) as [|c b].
      * intros H; injection H as <- <-. done.
      * cbn [buf]. destruct (extract_float (c :: b)) as [xtrc r].
        destruct (convert_to_v xtrc) as [x err].
        intros H; injection H as <- <-. done.
Qed.

Lemma extract_record_assigned line iss atom x y z :
  extract_record line = (iss, atom, x, y, z) -> fail iss = false ->
  exists x' y' z', x = Some x' /\ y = Some y' /\ z = Some z'.
Proof.
  unfold extract_record.
  destruct (extract_string _ _) as [s0 a].
  destruct (extract_floating s0 None) as [s1 vx] eqn:Ex.
  destruct (extract_floating s1 None) as [s2 vy] eqn:Ey.
  destruct (extract_floating s2 None) as [s3 vz] eqn:Ez.
  intros H; injection H as <- <- <- <- <-. unfold fail. intros Hf.
  apply extract_floating_fail in Ex as [_ Hx], Ey as [Hy1 Hy], Ez as [Hz1 Hz].
  destruct vx as [x'|]; [|rewrite Hz1 in Hf; [done|auto]].
  destruct vy as [y'|]; [|rewrite Hz1 in Hf; [done|auto]].
  destruct vz as [z'|]; [|rewrite Hz in Hf; done].
  by exists x', y', z'.
Qed.

(* ===================================================================== *)
(** * The loop *)
(* ===================================================================== *)

Lemma bind_returns {A B : Type} (a : A) (k : A -> outcome B) :
  (Returns a ≫= k) = k a.
Proof. reflexivity. Qed.

Lemma assign_ok {A : Type} (v : list A) (i : nat) (a : A) :
  (i < length v)%nat -> assign v (Z.of_nat i) a = Returns (<[i := a]> v).
Proof.
  intros Hi. unfold assign.
  replace ((0 <=? Z.of_nat i) && (Z.of_nat i <? Z.of_nat (length v))) with true.
  - by rewrite Nat2Z.id.
  - symmetry. apply andb_true_iff. split; [apply Z.leb_le|apply Z.ltb_lt]; lia.
Qed.

Lemma subscript_lookup {A : Type} (v : list A) (i : nat) :
  subscript v (Z.of_nat i) =
  match v !! i with
  | Some a => Returns a
  | None => Undefined subscript_out_of_range
  end.
Proof.
  unfold subscript. rewrite Nat2Z.id.
  destruct (v !! i) eqn:E.
  - apply lookup_lt_Some in E.
    replace ((0 <=? Z.of_nat i) && (Z.of_nat i <? Z.of_nat (length v))) with true; [done|].
    symmetry. apply andb_true_iff. split; [apply Z.leb_le|apply Z.ltb_lt]; lia.
  - by destruct (_ && _).
Qed.

Lemma int_mul_ok a b :
  INT_MIN <= a * b <= INT_MAX -> int_mul a b = Returns (a * b).
Proof.
  intros H. unfold int_mul, in_int.
  replace ((INT_MIN <=? a * b) && (a * b <=? INT_MAX)) with true; [done|].
  symmetry. apply andb_true_iff. split; apply Z.leb_le; lia.
Qed.

Lemma int_add_ok a b :
  INT_MIN <= a + b <= INT_MAX -> int_add a b = Returns (a + b).
Proof.
  intros H. unfold int_add, in_int.
  replace ((INT_MIN <=? a + b) && (a + b <=? INT_MAX)) with true; [done|].
  symmetry. apply andb_true_iff. split; apply Z.leb_le; lia.
Qed.

Lemma INT_MIN_neg : INT_MIN < 0.
Proof. reflexivity. Qed.

(** One iteration, as the record of the line it reads. *)
Lemma loop_body_spec input k atoms xyz :
  (k < length atoms)%nat -> (3 * k + 2 < length xyz)%nat ->
  3 * Z.of_nat k + 2 <= INT_MAX ->
  loop_body input (Z.of_nat k) (atoms, xyz) =
  match input !! k with
  | None => Undefined subscript_out_of_range
  | Some line =>
      match parse_line line with
      | None => Throws (runtime_error "Could not parse line")
      | Some (a, x, y, z) =>
          Returns (<[k := a]> atoms,
                   <[(3 * k + 2)%nat := z]> (<[(3 * k + 1)%nat := y]> (<[(3 * k)%nat := x]> xyz)))
      end
  end.
Proof.
  intros Ha Hx Hmax. pose proof INT_MIN_neg as Hmin.
  unfold loop_body. rewrite subscript_lookup.
  destruct (input !! k) as [line|]; [|done]. rewrite bind_returns.
  unfold parse_line.
  destruct (extract_record line) as [[[[iss a] x] y] z] eqn:E.
  destruct (fail iss) eqn:Hf; [done|].
  destruct (extract_record_assigned _ _ _ _ _ _ E Hf) as (x' & y' & z' & -> & -> & ->).
  rewrite assign_ok, bind_returns by done.
  rewrite int_mul_ok by lia. cbn [load].
  rewrite bind_returns, int_add_ok, !bind_returns by lia.
  replace (Z.of_nat k * 3 + 0) with (Z.of_nat (3 * k)) by lia.
  rewrite assign_ok, bind_returns by lia.
  rewrite bind_returns, int_add_ok, !bind_returns by lia.
  replace (Z.of_nat k * 3 + 1) with (Z.of_nat (3 * k + 1)) by lia.
  rewrite assign_ok, bind_returns by (rewrite length_insert; lia).
  rewrite bind_returns, int_add_ok, !bind_returns by lia.
  replace (Z.of_nat k * 3 + 2) with (Z.of_nat (3 * k + 2)) by lia.
  rewrite assign_ok, bind_returns by (rewrite !length_insert; lia).
  done.
Qed.

Lemma length_coords_all rs : length (coords_all rs) = (3 * length rs)%nat.
Proof.
  induction rs as [|[[[a x] y] z] rs IH]; [done|].
  cbn. unfold coords_all in IH. rewrite IH. lia.
Qed.

Lemma length_labels_of rs : length (labels_of rs) = length rs.
Proof. apply length_map. Qed.

Lemma insert_three {A : Type} (C R : list A) n x y z a b c :
  length C = n ->
  <[(n + 2)%nat := z]> (<[(n + 1)%nat := y]> (<[n := x]> (C ++ a :: b :: c :: R)))
  = C ++ x :: y :: z :: R.
Proof.
  intros <-.
  rewrite (insert_app_r_alt C _ (length C)) by lia.
  rewrite (insert_app_r_alt C _ (length C + 1)) by lia.
  rewrite (insert_app_r_alt C _ (length C + 2)) by lia.
  replace (length C - length C)%nat with 0%nat by lia.
  replace (length C + 1 - length C)%nat with 1%nat by lia.
  replace (length C + 2 - length C)%nat with 2%nat by lia.
  done.
Qed.

(** The loop invariant: after [k] iterations the vectors hold the [k]
    records read so far, followed by their initial elements. *)
Lemma for_loop_collect input count :
  forall k rs m,
    length rs = k -> (count <= m)%nat -> 3 * Z.of_nat (k + count) <= INT_MAX ->
    for_loop input count (Z.of_nat k)
      (labels_of rs ++ replicate m [], coords_all rs ++ replicate (3 * m) float_zero)
    = collect input count k ≫= fun rs' =>
        Returns (labels_of (rs ++ rs') ++ replicate (m - count) [],
                 coords_all (rs ++ rs') ++ replicate (3 * (m - count)) float_zero).
Proof.
  induction count as [|count IH]; intros k rs m Hk Hm Hmax.
  - cbn [for_loop collect]. by rewrite bind_returns, app_nil_r, Nat.sub_0_r.
  - destruct m as [|m]; [lia|]. cbn [for_loop collect].
    rewrite loop_body_spec.
    2: { rewrite length_app, length_labels_of, length_replicate. lia. }
    2: { rewrite length_app, length_coords_all, length_replicate. lia. }
    2: { lia. }
    destruct (input !! k) as [line|]; [|done].
    destruct (parse_line line) as [[[[a x] y] z]|]; [|done].
    rewrite bind_returns.
    replace (3 * S m)%nat with (S (S (S (3 * m)))) by lia. cbn [replicate].
    rewrite (insert_app_r_alt (labels_of rs) _ k) by (rewrite length_labels_of; lia).
    rewrite length_labels_of, Hk, Nat.sub_diag. cbn [insert list_insert].
    rewrite (insert_three (coords_all rs) _ (3 * k)) by (rewrite length_coords_all; lia).
    replace (Z.of_nat k + 1) with (Z.of_nat (S k)) by lia.
    specialize (IH (S k) (rs ++ [(a, x, y, z)]) m).
    unfold labels_of, coords_all in *.
    rewrite map_app, flat_map_app, <- !app_assoc in IH.
    cbn [map flat_map app coords_of label_of] in IH.
    rewrite IH by (rewrite ?length_app; cbn; lia).
    destruct (collect input count (S k)) as [rs'| |]; [|done..].
    cbn. by rewrite <- !app_assoc.
Qed.

Lemma size_t_of_int_small n : 0 <= n <= SIZE_MAX -> size_t_of_int n = n.
Proof. intros H. unfold size_t_of_int. apply Z.mod_small. lia. Qed.

Lemma vector_ctor_ok {A : Type} sz n (init : A) :
  n <= max_size sz -> vector_ctor sz n init = Returns (replicate (Z.to_nat n) init).
Proof.
  intros H. unfold vector_ctor.
  by replace (max_size sz <? n) with false by (symmetry; apply Z.ltb_ge; lia).
Qed.

(** The call, as the records of the first [n_atoms] lines. *)
Lemma process_collect input n :
  0 <= n -> 3 * n <= INT_MAX ->
  process_lines_with_atoms input n =
  collect input (Z.to_nat n) 0 ≫= fun rs => Returns (labels_of rs, coords_all rs).
Proof.
  intros Hn Hmax. unfold process_lines_with_atoms.
  assert (HI : INT_MAX = 2147483647) by reflexivity.
  assert (HS : SIZE_MAX = 18446744073709551615) by reflexivity.
  assert (H1 : max_size sizeof_string = 288230376151711743) by reflexivity.
  assert (H2 : max_size sizeof_float = 2305843009213693951) by reflexivity.
  rewrite size_t_of_int_small, vector_ctor_ok, bind_returns by lia.
  rewrite int_mul_ok, bind_returns by (unfold INT_MIN; lia).
  rewrite size_t_of_int_small, vector_ctor_ok, bind_returns by lia.
  replace (Z.to_nat (n * 3)) with (3 * Z.to_nat n)%nat by lia.
  pose proof (for_loop_collect input (Z.to_nat n) 0 [] (Z.to_nat n) eq_refl) as H.
  cbn [labels_of coords_all map flat_map app] in H. change (Z.of_nat 0) with 0 in H.
  rewrite H by lia. rewrite Nat.sub_diag.
  destruct (collect input (Z.to_nat n) 0); [|done..].
  cbn. by rewrite !app_nil_r.
Qed.

(* ===================================================================== *)
(** * The records of a call *)
(* ===================================================================== *)

Lemma collect_returns_inv input count :
  forall i rs,
    collect input count i = Returns rs ->
    length rs = count
    /\ forall j r, rs !! j = Some r ->
         exists line, input !! (i + j)%nat = Some line /\ parse_line line = Some r.
Proof.
  induction count as [|count IH]; intros i rs; cbn [collect].
  - intros H; injection H as <-. done.
  - destruct (input !! i) as [line|] eqn:Hl; [|done].
    destruct (parse_line line) as [r|] eqn:Hp; [|done].
    destruct (collect input count (S i)) as [rs'| |] eqn:Hc; [|done..].
    cbn. intros H; injection H as <-.
    destruct (IH _ _ Hc) as [Hlen Hrs]. split; [by rewrite <- Hlen|].
    intros [|j] r'; cbn.
    + intros H; injection H as <-. exists line. by rewrite Nat.add_0_r.
    + intros H. destruct (Hrs _ _ H) as (line' & Hl' & Hp').
      exists line'. by rewrite <- Nat.add_succ_comm.
Qed.

Lemma collect_returns_intro input count :
  forall i,
    (forall j, (j < count)%nat ->
       exists line r, input !! (i + j)%nat = Some line /\ parse_line line = Some r) ->
    exists rs, collect input count i = Returns rs.
Proof.
  induction count as [|count IH]; intros i H; cbn [collect]; [by eexists|].
  destruct (H 0%nat) as (line & r & Hl & Hp); [lia|].
  rewrite Nat.add_0_r in Hl. rewrite Hl, Hp.
  destruct (IH (S i)) as [rs ->]; [|by eexists].
  intros j Hj. destruct (H (S j)) as (l' & r' & Hl' & Hp'); [lia|].
  exists l', r'. by rewrite Nat.add_succ_comm.
Qed.


Lemma collect_undefined_inv input count :
  forall i u,
    collect input count i = Undefined u ->
    u = subscript_out_of_range /\ (length input < i + count)%nat.
Proof.
  induction count as [|count IH]; intros i u; cbn [collect]; [done|].
  destruct (input !! i) as [line|] eqn:Hl.
  - destruct (parse_line line) as [r|]; [|done].
    destruct (collect input count (S i)) as [rs'|e'|u'] eqn:Hc; [done..|].
    cbn. intros H; injection H as <-. destruct (IH _ _ Hc) as [-> Hlen].
    split; [done|lia].
  - intros H; injection H as <-. apply lookup_ge_None in Hl. split; [done|lia].
Qed.

(** Only the lines at the indices visited matter. *)
Lemma collect_ext input1 input2 count :
  forall i,
    (forall j, (j < count)%nat -> input1 !! (i + j)%nat = input2 !! (i + j)%nat) ->
    collect input1 count i = collect input2 count i.
Proof.
  induction count as [|count IH]; intros i H; cbn [collect]; [done|].
  pose proof (H 0%nat) as H0. rewrite Nat.add_0_r in H0. rewrite <- H0 by lia.
  rewrite (IH (S i)); [done|].
  intros j Hj. rewrite Nat.add_succ_comm. apply H. lia.
Qed.

Lemma labels_lookup rs j r :
  rs !! j = Some r -> labels_of rs !! j = Some (label_of r).
Proof.
  revert j. induction rs as [|r' rs IH]; intros [|j]; cbn; try done.
  - by intros H; injection H as <-.
  - apply IH.
Qed.

Lemma coords_lookup rs j a x y z :
  rs !! j = Some (a, x, y, z) ->
  coords_all rs !! (3 * j)%nat = Some x
  /\ coords_all rs !! (3 * j + 1)%nat = Some y
  /\ coords_all rs !! (3 * j + 2)%nat = Some z.
Proof.
  revert j. induction rs as [|[[[a' x'] y'] z'] rs IH]; intros [|j]; try done.
  - cbn. by intros H; injection H as <- <- <- <-.
  - intros H. replace (3 * S j)%nat with (S (S (S (3 * j)))) by lia.
    cbn. by apply IH.
Qed.

(* ===================================================================== *)
(** * Rounding never yields a NaN *)
(* ===================================================================== *)

Lemma shr_1_nonneg mrs : 0 <= shr_m mrs -> 0 <= shr_m (shr_1 mrs).
Proof. destruct mrs as [[|[p|p|]|p] r s]; cbn; lia. Qed.

Lemma iter_shr_1_nonneg p :
  forall mrs, 0 <= shr_m mrs -> 0 <= shr_m (SpecFloat.iter_pos shr_1 p mrs).
Proof.
  induction p as [p IH|p IH|]; intros mrs H; cbn [SpecFloat.iter_pos].
  - by apply IH, IH, shr_1_nonneg.
  - by apply IH, IH.
  - by apply shr_1_nonneg.
Qed.

Lemma shr_fexp_nonneg m e l :
  0 <= m -> 0 <= shr_m (fst (shr_fexp prec emax m e l)).
Proof.
  intros H. unfold shr_fexp, shr.
  assert (H0 : 0 <= shr_m (shr_record_of_loc m l)) by (by destruct l as [|[]]).
  destruct (fexp prec emax (Zdigits2 m + e) - e); cbn [fst]; try done.
  by apply iter_shr_1_nonneg.
Qed.

Lemma round_nearest_even_nonneg m l : 0 <= m -> 0 <= round_nearest_even m l.
Proof.
  intros H. unfold round_nearest_even. destruct l as [|[]]; try done.
  - destruct (Z.even m); lia.
  - lia.
Qed.

Lemma binary_round_aux_not_nan s m e l :
  0 <= m -> binary_round_aux prec emax s m e l <> S754_nan.
Proof.
  intros H. unfold binary_round_aux.
  pose proof (shr_fexp_nonneg m e l H) as H1.
  destruct (shr_fexp prec emax m e l) as [mrs' e']. cbn [fst] in H1.
  pose proof (shr_fexp_nonneg _ e' loc_Exact
                (round_nearest_even_nonneg _ (loc_of_shr_record mrs') H1)) as H2.
  destruct (shr_fexp prec emax _ e' loc_Exact) as [mrs'' e'']. cbn [fst] in H2.
  destruct (shr_m mrs'') as [|p|p]; [done| |lia].
  by destruct (e'' <=? emax - prec).
Qed.

Lemma round_decimal_not_nan d : round_decimal d <> S754_nan.
Proof.
  unfold round_decimal. destruct (dmant d) as [|m]; [done|].
  destruct (0 <=? dexp10 d).
  - unfold binary_round. destruct (shl_align _ _ _) as [mz ez].
    by apply binary_round_aux_not_nan.
  - unfold SFdiv_core_binary.
    set (e' := Z.min _ _). set (m' := match _ with Z0 => _ | Zpos _ => _ | Zneg _ => _ end).
    assert (Hm' : 0 <= m').
    { subst m'. destruct (0 - 0 - e'); [done| |done]. by apply Z.shiftl_nonneg. }
    pose proof (Z.div_pos m' (10 ^ (- dexp10 d)) Hm') as Hq. unfold Z.div in Hq.
    destruct (Z.div_eucl m' (10 ^ (- dexp10 d))) as [q r] eqn:E.
    destruct (Z.eq_dec (10 ^ (- dexp10 d)) 0) as [H0|H0].
    + rewrite H0 in E. destruct m'; cbn in E; injection E as <- <-;
        by apply binary_round_aux_not_nan.
    + apply binary_round_aux_not_nan, Hq.
      pose proof (Z.pow_nonneg 10 (- dexp10 d)). lia.
Qed.

(** What a successful conversion stores is a finite number. *)
Lemma convert_to_v_finite xtrc v :
  convert_to_v xtrc = (v, false) -> is_finite v = true.
Proof.
  unfold convert_to_v, strtof.
  destruct (scan_decimal xtrc) as [[d r]|].
  - destruct (_ || _); [done|].
    pose proof (round_decimal_not_nan d) as Hn.
    destruct (round_decimal d) as [s|[]| |s m e]; try done;
      by intros H; injection H as <-.
  - destruct (_ || _) eqn:E; [done|].
    apply orb_false_iff in E as [E _]. by rewrite Nat.eqb_refl in E.
Qed.

Lemma extract_floating_finite s v s' x :
  extract_floating s v = (s', Some x) -> failbit s' = false ->
  v = None -> is_finite x = true.
Proof.
  unfold extract_floating. destruct (sentry s) as [s0 [|]].
  - destruct (extract_float (buf s0)) as [xtrc r].
    destruct (convert_to_v xtrc) as [x' err] eqn:E.
    intros H; injection H as <- <-. cbn [failbit].
    intros [_ ->]%orb_false_iff _. by eapply convert_to_v_finite.
  - intros H; injection H as _ ->. by intros _ ?.
Qed.

Lemma parse_line_finite line a x y z :
  parse_line line = Some (a, x, y, z) ->
  is_finite x = true /\ is_finite y = true /\ is_finite z = true.
Proof.
  unfold parse_line, extract_record.
  destruct (extract_string _ _) as [s0 a0].
  destruct (extract_floating s0 None) as [s1 vx] eqn:Ex.
  destruct (extract_floating s1 None) as [s2 vy] eqn:Ey.
  destruct (extract_floating s2 None) as [s3 vz] eqn:Ez.
  unfold fail. destruct (failbit s3) eqn:F3; [done|].
  destruct vx as [x'|], vy as [y'|], vz as [z'|]; try done.
  intros H; injection H as <- <- <- <-.
  pose proof (extract_floating_fail _ _ _ _ Ez) as [F2 _].
  pose proof (extract_floating_fail _ _ _ _ Ey) as [F1 _].
  assert (failbit s2 = false).
  { destruct (failbit s2); [|done]. rewrite F2 in F3; done. }
  assert (failbit s1 = false).
  { destruct (failbit s1); [|done]. rewrite F1 in *; done. }
  repeat split; by eapply extract_floating_finite.
Qed.

(* ===================================================================== *)
(** * The call outside its range *)
(* ===================================================================== *)

Lemma int_mul_overflow a b :
  ~ (INT_MIN <= a * b <= INT_MAX) -> int_mul a b = Undefined signed_overflow.
Proof.
  intros H. unfold int_mul, in_int.
  destruct ((INT_MIN <=? a * b) && (a * b <=? INT_MAX)) eqn:E; [|done].
  apply andb_true_iff in E as [?%Z.leb_le ?%Z.leb_le]. lia.
Qed.

Lemma vector_ctor_too_long {A : Type} sz n (init : A) :
  max_size sz < n -> vector_ctor sz n init = Throws vector_too_long.
Proof.
  intros H. unfold vector_ctor.
  by replace (max_size sz <? n) with true by (symmetry; apply Z.ltb_lt; lia).
Qed.

(** A negative count: the first container cannot be constructed. *)
Lemma process_negative input n :
  INT_MIN <= n -> n < 0 -> process_lines_with_atoms input n = Throws vector_too_long.
Proof.
  intros Hmin Hneg. unfold process_lines_with_atoms.
  assert (E : size_t_of_int n = n + (SIZE_MAX + 1)).
  { unfold size_t_of_int. symmetry. apply Z.mod_unique with (q := -1).
    - left. unfold SIZE_MAX, INT_MIN in *. lia.
    - lia. }
  rewrite E, vector_ctor_too_long; [done|].
  vm_compute max_size. unfold SIZE_MAX, INT_MIN in *. lia.
Qed.

(** A count whose triple is no [int]: the size of the second container
    cannot be computed. *)
Lemma process_overflow input n :
  0 <= n <= INT_MAX -> INT_MAX < 3 * n ->
  process_lines_with_atoms input n = Undefined signed_overflow.
Proof.
  intros Hn Hover. unfold process_lines_with_atoms.
  assert (H1 : max_size sizeof_string = 288230376151711743) by reflexivity.
  rewrite size_t_of_int_small, vector_ctor_ok, bind_returns
    by (unfold SIZE_MAX, INT_MAX in *; lia).
  by rewrite int_mul_overflow by lia.
Qed.

Lemma process_returns_range input n r :
  process_lines_with_atoms input n = Returns r -> 0 <= n /\ 3 * n <= INT_MAX.
Proof.
  intros H.
  destruct (Z_le_dec INT_MIN (n * 3)) as [Hlo|Hlo].
  - destruct (Z_le_dec (n * 3) INT_MAX) as [Hhi|Hhi].
    + split; [|lia]. destruct (Z_lt_dec n 0) as [Hneg|]; [|lia].
      rewrite process_negative in H; [done| |done]. unfold INT_MIN in *. lia.
    + unfold process_lines_with_atoms in H.
      rewrite (int_mul_overflow n 3) in H by lia.
      by destruct (vector_ctor _ _ _).
  - unfold process_lines_with_atoms in H.
    rewrite (int_mul_overflow n 3) in H by lia.
    by destruct (vector_ctor _ _ _).
Qed.

Lemma process_returns_records input n labels coords :
  process_lines_with_atoms input n = Returns (labels, coords) ->
  exists rs,
    collect input (Z.to_nat n) 0 = Returns rs
    /\ labels = labels_of rs /\ coords = coords_all rs.
Proof.
  intros H. destruct (process_returns_range _ _ _ H) as [Hn Hmax].
  rewrite process_collect in H by done.
  destruct (collect input (Z.to_nat n) 0) as [rs| |]; [|done..].
  cbn in H. injection H as <- <-. by exists rs.
Qed.

(* ===================================================================== *)
(** * Well-formed lines *)
(* ===================================================================== *)

Lemma record_of_tokens_inv line a x y z :
  record_of_tokens line = Some (a, x, y, z) ->
  exists t1 t2 t3 more,
    tokens line = a :: t1 :: t2 :: t3 :: more
    /\ float_token t1 = Some x /\ float_token t2 = Some y /\ float_token t3 = Some z.
Proof.
  unfold record_of_tokens.
  destruct (tokens line) as [|t0 [|t1 [|t2 [|t3 more]]]]; try done.
  destruct (float_token t1) as [x'|] eqn:Hx; [|done].
  destruct (float_token t2) as [y'|] eqn:Hy; [|done].
  destruct (float_token t3) as [z'|] eqn:Hz; [|done].
  intros H; injection H as <- <- <- <-. by exists t1, t2, t3, more.
Qed.

(** When every line visited is read as a record, the call returns these
    records, in the order of the lines. *)
Lemma process_records input n :
  0 <= n -> 3 * n <= INT_MAX ->
  (forall i, (i < Z.to_nat n)%nat ->
     exists line r, input !! i = Some line /\ parse_line line = Some r) ->
  exists rs,
    process_lines_with_atoms input n = Returns (labels_of rs, coords_all rs)
    /\ forall i line, (i < Z.to_nat n)%nat -> input !! i = Some line ->
         exists r, parse_line line = Some r /\ rs !! i = Some r.
Proof.
  intros Hn Hmax H.
  destruct (collect_returns_intro input (Z.to_nat n) 0 H) as [rs Hc].
  exists rs. rewrite process_collect, Hc by done. split; [done|].
  apply collect_returns_inv in Hc as [Hlen Hrs].
  intros i line Hi Hl.
  destruct (lookup_lt_is_Some_2 rs i) as [r Hr]; [lia|].
  destruct (Hrs _ _ Hr) as (line' & Hl' & Hp). cbn [Nat.add] in Hl'.
  exists r. split; [|done]. congruence.
Qed.

Lemma process_single line a x y z :
  parse_line line = Some (a, x, y, z) ->
  process_lines_with_atoms [line] 1 = Returns ([a], [x; y; z]).
Proof.
  intros Hp. rewrite process_collect by (vm_compute; discriminate).
  change (Z.to_nat 1) with 1%nat. cbn [collect].
  cbn [lookup list_lookup]. by rewrite Hp.
Qed.

(* ===================================================================== *)
(** * Lines that are not read as a record *)
(* ===================================================================== *)

Lemma tokens_nil_skipws s : tokens s = [] -> skipws s = [].
Proof.
  rewrite tokens_unfold. destruct (skipws s) as [|c b]; [done|].
  by destruct (take_word (c :: b)).
Qed.

(** Once [failbit] is set the line is rejected. *)
Lemma failed_stream_rejected s1 s2 s3 vx vx' vy vz :
  failbit s1 = true ->
  extract_floating s1 vx = (s2, vy) -> extract_floating s2 vx' = (s3, vz) ->
  failbit s3 = true.
Proof.
  intros F1 E1 E2.
  apply extract_floating_fail in E1 as [F2 _], E2 as [F3 _]. auto.
Qed.

Lemma sentry_nothing_left b :
  tokens b = [] -> sentry (stream b) = (IStringStream b (is_nil b) true, false)
                   \/ sentry (stream b) = (IStringStream [] true true, false).
Proof.
  intros H%tokens_nil_skipws. unfold sentry, stream, good. cbn.
  destruct (is_nil b) eqn:E; cbn; [by left|]. rewrite H. by right.
Qed.

Lemma extract_floating_nothing_left b v :
  tokens b = [] -> failbit (fst (extract_floating (stream b) v)) = true.
Proof.
  intros H. unfold extract_floating.
  by destruct (sentry_nothing_left b H) as [-> | ->].
Qed.

(** A line without a second token is rejected. *)
Lemma parse_line_few_tokens line :
  (length (tokens line) < 2)%nat -> parse_line line = None.
Proof.
  intros Hlen. unfold parse_line, extract_record.
  destruct (tokens line) as [|t0 [|t1 ts]] eqn:Ht; [| |cbn in Hlen; lia].
  - apply tokens_nil_skipws in Ht.
    unfold extract_string, sentry, istringstream_ctor, good. cbn. rewrite Ht.
    destruct (extract_floating _ None) as [s1 vx] eqn:E1.
    destruct (extract_floating s1 None) as [s2 vy] eqn:E2.
    destruct (extract_floating s2 None) as [s3 vz] eqn:E3.
    apply extract_floating_fail in E1 as [F1 _], E2 as [F2 _], E3 as [F3 _].
    unfold fail. rewrite F3; [done|]. by apply F2, F1.
  - replace (istringstream_ctor line) with (stream line)
      by (unfold stream; by rewrite (tokens_nonempty _ _ _ Ht)).
    destruct (extract_string_stream line _ _ [] Ht) as (r0 & -> & Ht0).
    pose proof (extract_floating_nothing_left r0 None Ht0) as F1.
    destruct (extract_floating (stream r0) None) as [s1 vx]. cbn [fst] in F1.
    destruct (extract_floating s1 None) as [s2 vy] eqn:E2.
    destruct (extract_floating s2 None) as [s3 vz] eqn:E3.
    unfold fail. by rewrite (failed_stream_rejected _ _ _ _ _ _ _ F1 E2 E3).
Qed.



(** An input that ends before [count] lines were read: either a line that
    exists is rejected, or the read runs past the end. *)
Lemma collect_short input count :
  forall i,
    (i <= length input)%nat -> (length input < i + count)%nat ->
    (collect input count i = Throws parse_failure
     /\ exists j line, input !! j = Some line /\ parse_line line = None)
    \/ (collect input count i = Undefined subscript_out_of_range
        /\ forall j line, (i <= j)%nat -> input !! j = Some line -> parse_line line <> None).
Proof.
  induction count as [|count IH]; intros i Hi Hlen; [lia|]. cbn [collect].
  destruct (input !! i) as [line|] eqn:Hl.
  - destruct (parse_line line) as [r|] eqn:Hp.
    + apply lookup_lt_Some in Hl as Hlt.
      destruct (IH (S i)) as [[-> Hex]|[-> Hall]]; [lia..| |].
      * by left.
      * right. split; [done|]. intros j line' Hj Hl'.
        destruct (Nat.eq_dec j i) as [->|]; [congruence|]. apply (Hall j); [lia|done].
    + left. split; [done|]. by exists i, line.
  - right. split; [done|]. intros j line' Hj Hl'.
    apply lookup_ge_None in Hl. apply lookup_lt_Some in Hl'. lia.
Qed.

(* ===================================================================== *)
(** * Equality of what was produced *)
(* ===================================================================== *)






Lemma collect_finite input count :
  forall i rs,
    collect input count i = Returns rs ->
    Forall (fun v => is_finite v = true) (coords_all rs).
Proof.
  induction count as [|count IH]; intros i rs; cbn [collect].
  - intros H; injection H as <-. constructor.
  - destruct (input !! i) as [line|]; [|done].
    destruct (parse_line line) as [[[[a x] y] z]|] eqn:Hp; [|done].
    destruct (collect input count (S i)) as [rs'| |] eqn:Hc; [|done..].
    cbn. intros H; injection H as <-.
    apply parse_line_finite in Hp as (Hx & Hy & Hz).
    cbn. repeat constructor; try done. by eapply IH.
Qed.

(* ===================================================================== *)
(** * Reading depends on the lines visited only *)
(* ===================================================================== *)

Lemma loop_body_ext input1 input2 k st :
  input1 !! k = input2 !! k ->
  loop_body input1 (Z.of_nat k) st = loop_body input2 (Z.of_nat k) st.
Proof.
  intros H. unfold loop_body. destruct st as [atoms xyz].
  by rewrite !subscript_lookup, H.
Qed.

Lemma for_loop_ext input1 input2 count :
  forall k st,
    (forall j, (j < count)%nat -> input1 !! (k + j)%nat = input2 !! (k + j)%nat) ->
    for_loop input1 count (Z.of_nat k) st = for_loop input2 count (Z.of_nat k) st.
Proof.
  induction count as [|count IH]; intros k st H; cbn [for_loop]; [done|].
  pose proof (H 0%nat) as H0. rewrite Nat.add_0_r in H0.
  rewrite (loop_body_ext input1 input2) by (apply H0; lia).
  destruct (loop_body input2 (Z.of_nat k) st) as [st'| |]; [|done..].
  rewrite !bind_returns. replace (Z.of_nat k + 1) with (Z.of_nat (S k)) by lia.
  apply IH. intros j Hj. rewrite Nat.add_succ_comm. apply H. lia.
Qed.

(* ===================================================================== *)
(** * Extraction stops at white space *)
(* ===================================================================== *)

Lemma at_space_chars c :
  isspace c = true ->
  isdigit c = false /\ is_char "." c = false /\ is_exp_char c = false
  /\ is_char "+" c = false /\ is_char "-" c = false /\ is_char "0" c = false.
Proof. ascii_cases c; vm_compute; intuition congruence. Qed.

Lemma extract_sign_local p r :
  at_space r = true ->
  extract_sign (p ++ r) = let '(sg, p') := extract_sign p in (sg, p' ++ r).
Proof.
  intros Hr. destruct p as [|c p]; cbn [app extract_sign].
  - destruct r as [|c r]; [done|]. cbn in Hr. cbn [extract_sign].
    destruct (at_space_chars _ Hr) as (_ & _ & _ & -> & -> & _). done.
  - by destruct (is_char "+" c), (is_char "-" c).
Qed.

Lemma leading_zeros_local p r f :
  at_space r = true ->
  leading_zeros (p ++ r) f = let '(found, p') := leading_zeros p f in (found, p' ++ r).
Proof.
  intros Hr. revert f. induction p as [|c p IH]; intros f; cbn [app leading_zeros].
  - destruct r as [|c r]; [done|]. cbn in Hr. cbn [leading_zeros].
    destruct (at_space_chars _ Hr) as (_ & -> & _ & _ & _ & ->). done.
  - destruct (is_char "." c); [done|]. destruct (is_char "0" c); [apply IH|done].
Qed.

Lemma float_digits_at_space r fm fd fs :
  at_space r = true -> float_digits r fm fd fs = ([], r).
Proof.
  intros Hr. apply float_digits_stop. destruct r as [|c r]; [done|].
  by apply isspace_stop.
Qed.

Lemma float_digits_local r :
  at_space r = true ->
  forall n p fm fd fs,
    (length p <= n)%nat ->
    float_digits (p ++ r) fm fd fs =
    let '(x, p') := float_digits p fm fd fs in (x, p' ++ r).
Proof.
  intros Hr. induction n as [|n IH]; intros p fm fd fs Hn.
  - destruct p; [|cbn in Hn; lia]. cbn [app].
    by rewrite float_digits_at_space.
  - destruct p as [|c p]; [cbn [app]; by rewrite float_digits_at_space|].
    cbn [length] in Hn. cbn [app float_digits].
    destruct (isdigit c).
    { rewrite IH by lia. by destruct (float_digits p true fd fs). }
    destruct (is_char "." c && negb fd && negb fs).
    { rewrite IH by lia. by destruct (float_digits p fm true fs). }
    destruct (is_exp_char c && negb fs && fm); [|done].
    destruct p as [|c2 p]; cbn [app].
    + destruct r as [|c2 r]; [done|]. cbn in Hr.
      destruct (at_space_chars _ Hr) as (_ & _ & _ & -> & -> & _). cbn [orb].
      rewrite float_digits_at_space by done. done.
    + cbn [length] in Hn. destruct (is_char "+" c2 || is_char "-" c2).
      * rewrite IH by lia. by destruct (float_digits p fm fd true).
      * rewrite (IH (c2 :: p)) by (cbn; lia).
        by destruct (float_digits (c2 :: p) fm fd true).
Qed.

(** [_M_extract_float] never looks beyond the white space that ends a
    token. *)
Lemma extract_float_local p r :
  at_space r = true ->
  extract_float (p ++ r) = let '(x, p') := extract_float p in (x, p' ++ r).
Proof.
  intros Hr. unfold extract_float. rewrite extract_sign_local by done.
  destruct (extract_sign p) as [sg p1].
  rewrite leading_zeros_local by done.
  destruct (leading_zeros p1 false) as [found p2].
  rewrite (float_digits_local r Hr (length p2)) by lia.
  by destruct (float_digits p2 found false false).
Qed.

(** What an extraction leaves is the end of what it was given. *)
Lemma extract_sign_suffix p sg p' : extract_sign p = (sg, p') -> p' `suffix_of` p.
Proof.
  destruct p as [|c p]; cbn.
  - by intros H; injection H as <- <-.
  - destruct (is_char "+" c); [|destruct (is_char "-" c)];
      intros H; injection H as <- <-; try done; by apply suffix_cons_r.
Qed.

Lemma leading_zeros_suffix p f found p' :
  leading_zeros p f = (found, p') -> p' `suffix_of` p.
Proof.
  revert f. induction p as [|c p IH]; intros f; cbn.
  - by intros H; injection H as <- <-.
  - destruct (is_char "." c); [by intros H; injection H as <- <-|].
    destruct (is_char "0" c); [|by intros H; injection H as <- <-].
    intros H. apply suffix_cons_r. by eapply IH.
Qed.

Lemma float_digits_suffix n :
  forall p fm fd fs x p',
    (length p <= n)%nat -> float_digits p fm fd fs = (x, p') -> p' `suffix_of` p.
Proof.
  induction n as [|n IH]; intros p fm fd fs x p' Hn.
  - destruct p; [|cbn in Hn; lia]. by intros H; injection H as <- <-.
  - destruct p as [|c p]; [by intros H; injection H as <- <-|].
    cbn [length] in Hn. cbn [float_digits].
    destruct (isdigit c).
    { destruct (float_digits p true fd fs) as [x1 r1] eqn:E.
      intros H; injection H as <- <-. apply suffix_cons_r. eapply IH; [|done]. lia. }
    destruct (is_char "." c && negb fd && negb fs).
    { destruct (float_digits p fm true fs) as [x1 r1] eqn:E.
      intros H; injection H as <- <-. apply suffix_cons_r. eapply IH; [|done]. lia. }
    destruct (is_exp_char c && negb fs && fm); [|by intros H; injection H as <- <-].
    destruct p as [|c2 p].
    + intros H; injection H as <- <-. by apply suffix_cons_r.
    + cbn [length] in Hn. destruct (is_char "+" c2 || is_char "-" c2).
      * destruct (float_digits p fm fd true) as [x1 r1] eqn:E.
        intros H; injection H as <- <-. do 2 apply suffix_cons_r. eapply IH; [|done]. lia.
      * destruct (float_digits (c2 :: p) fm fd true) as [x1 r1] eqn:E.
        intros H; injection H as <- <-. apply suffix_cons_r.
        eapply (IH (c2 :: p)); [|done]. cbn. lia.
Qed.

Lemma extract_float_suffix p x p' : extract_float p = (x, p') -> p' `suffix_of` p.
Proof.
  unfold extract_float.
  destruct (extract_sign p) as [sg p1] eqn:E1.
  destruct (leading_zeros p1 false) as [found p2] eqn:E2.
  destruct (float_digits p2 found false false) as [x1 p3] eqn:E3.
  intros H; injection H as <- <-.
  apply extract_sign_suffix in E1. apply leading_zeros_suffix in E2.
  apply (float_digits_suffix (length p2)) in E3; [|lia].
  by etrans; [|etrans].
Qed.

Lemma nonspace_suffix p p' : p' `suffix_of` p -> nonspace p = true -> nonspace p' = true.
Proof.
  intros [q ->]. unfold nonspace. rewrite forallb_app. by intros [_ ?]%andb_true_iff.
Qed.

(* ===================================================================== *)
(** * The stream, token by token *)
(* ===================================================================== *)

Lemma take_word_words b w r :
  take_word b = (w, r) -> b = w ++ r /\ nonspace w = true /\ at_space r = true.
Proof.
  revert w r. induction b as [|c b IH]; cbn [take_word]; intros w r.
  - by intros H; injection H as <- <-.
  - destruct (isspace c) eqn:Hc.
    + intros H; injection H as <- <-. by cbn; rewrite Hc.
    + destruct (take_word b) as [w' r'] eqn:Hb. intros H; injection H as <- <-.
      destruct (IH _ _ eq_refl) as (-> & Hw & Hr).
      unfold nonspace in *. cbn [forallb app]. by rewrite Hc, Hw.
Qed.

Lemma tokens_cons_words s t ts :
  tokens s = t :: ts ->
  exists r,
    skipws s = t ++ r /\ is_nil t = false /\ nonspace t = true
    /\ at_space r = true /\ tokens r = ts.
Proof.
  intros H. destruct (tokens_cons_inv _ _ _ H) as (r & E & Hn & Hw & _ & Ht).
  apply take_word_words in Hw as (_ & Hns & Hr). by exists r.
Qed.

Lemma skipws_nonspace p r :
  is_nil p = false -> nonspace p = true -> skipws (p ++ r) = p ++ r.
Proof.
  destruct p as [|c p]; [done|]. cbn. intros _ [Hc _]%andb_true_iff.
  apply negb_true_iff in Hc. by rewrite Hc.
Qed.

(** A good stream in front of a word [t]: one [>> float]. *)
Lemma extract_floating_word t r ts v :
  is_nil t = false -> nonspace t = true -> at_space r = true -> tokens r = ts ->
  forall xtrc p' x err,
    extract_float t = (xtrc, p') -> convert_to_v xtrc = (x, err) ->
    let s' := IStringStream (p' ++ r) (is_nil (p' ++ r)) err in
    (let '(s0, ok) := (IStringStream (t ++ r) false false, true) in
     if ok
     then
       let '(xtrc, r) := extract_float (buf s0) in
       let '(x, err) := convert_to_v xtrc in
       (IStringStream r (eofbit s0 || is_nil r) (failbit s0 || err), Some x)
     else (s0, v)) = (s', Some x)
    /\ (err = false -> stands_at s' p' ts).
Proof.
  intros Hn Hns Hr Ht xtrc p' x err E C. cbn [buf eofbit failbit orb].
  rewrite extract_float_local, E, C by done. split; [done|].
  intros ->. repeat split; cbn.
  - by destruct (p' ++ r).
  - eapply nonspace_suffix; [by eapply extract_float_suffix|done].
  - by exists r.
Qed.

Lemma sentry_word s t r :
  failbit s = false -> eofbit s = false ->
  skipws (buf s) = t ++ r -> is_nil t = false ->
  sentry s = (IStringStream (t ++ r) false false, true).
Proof.
  intros Hf He Hs Hn. unfold sentry, good. rewrite Hf, He, Hs. cbn.
  by destruct t.
Qed.

(** One [>> float], in terms of the position in the line. *)
Lemma extract_floating_stands s p ts v s' v' :
  stands_at s p ts -> extract_floating s v = (s', v') ->
  match read_float p ts with
  | None => failbit s' = true
  | Some (x, p', ts') => v' = Some x /\ stands_at s' p' ts'
  end.
Proof.
  intros (Hf & He & Hns & r & Hb & Hr & Ht). unfold extract_floating, read_float.
  destruct (eofbit s) eqn:Heof.
  { specialize (He eq_refl). rewrite He in Hb.
    destruct p; [|done]. cbn [app] in Hb. subst r. cbn in Ht. subst ts.
    unfold sentry, good. rewrite Heof. cbn. by intros H; injection H as <- <-. }
  destruct p as [|c p].
  - cbn [app] in Hb. cbn [next_field]. destruct ts as [|t ts'].
    + apply tokens_nil_skipws in Ht. unfold sentry, good.
      rewrite Hf, Heof, Hb, Ht. cbn. by intros H; injection H as <- <-.
    + apply tokens_cons_words in Ht as (r' & Hs & Hn & Hnt & Hr' & Ht').
      rewrite <- Hb in Hs. rewrite (sentry_word s t r') by done.
      destruct (extract_float t) as [xtrc p'] eqn:E.
      destruct (convert_to_v xtrc) as [x err] eqn:C.
      destruct (extract_floating_word t r' ts' v Hn Hnt Hr' Ht' _ _ _ _ E C) as [-> Hst].
      intros H; injection H as <- <-. destruct err; [done|]. split; [done|]. by apply Hst.
  - cbn [next_field].
    rewrite (sentry_word s (c :: p) r); try done.
    2: { rewrite Hb. by apply skipws_nonspace. }
    destruct (extract_float (c :: p)) as [xtrc p'] eqn:E.
    destruct (convert_to_v xtrc) as [x err] eqn:C.
    destruct (extract_floating_word (c :: p) r ts v eq_refl Hns Hr Ht _ _ _ _ E C) as [-> Hst].
    intros H; injection H as <- <-. destruct err; [done|]. split; [done|]. by apply Hst.
Qed.

Lemma extract_string_stands b t ts v :
  tokens b = t :: ts ->
  exists s', extract_string (stream b) v = (s', t) /\ stands_at s' [] ts.
Proof.
  intros H. unfold extract_string. rewrite (sentry_stream _ _ _ H).
  apply tokens_cons_inv in H as (r & E & Hne & Hw & _ & Ht).
  cbn [buf eofbit failbit orb]. rewrite Hw, Hne.
  apply take_word_words in Hw as (_ & _ & Hr).
  eexists. split; [done|]. repeat split; cbn.
  - by destruct r.
  - by exists r.
Qed.

(** The record read from a line is a function of its tokens. *)
Lemma parse_line_read_tokens line : parse_line line = read_tokens (tokens line).
Proof.
  destruct (tokens line) as [|t0 ts0] eqn:Ht.
  { apply parse_line_few_tokens. rewrite Ht. cbn. lia. }
  unfold parse_line, extract_record, read_tokens.
  replace (istringstream_ctor line) with (stream line)
    by (unfold stream; by rewrite (tokens_nonempty _ _ _ Ht)).
  destruct (extract_string_stands line t0 ts0 [] Ht) as (s0 & -> & H0).
  destruct (extract_floating s0 None) as [s1 vx] eqn:E1.
  destruct (extract_floating s1 None) as [s2 vy] eqn:E2.
  destruct (extract_floating s2 None) as [s3 vz] eqn:E3.
  pose proof (extract_floating_stands _ _ _ _ _ _ H0 E1) as H1.
  destruct (read_float [] ts0) as [[[x p1] ts1]|].
  2: { unfold fail. by rewrite (failed_stream_rejected _ _ _ _ _ _ _ H1 E2 E3). }
  destruct H1 as [-> H1].
  pose proof (extract_floating_stands _ _ _ _ _ _ H1 E2) as H2.
  destruct (read_float p1 ts1) as [[[y p2] ts2]|].
  2: { apply extract_floating_fail in E3 as [F3 _]. unfold fail. by rewrite F3. }
  destruct H2 as [-> H2].
  pose proof (extract_floating_stands _ _ _ _ _ _ H2 E3) as H3.
  destruct (read_float p2 ts2) as [[[z p3] ts3]|].
  2: { unfold fail. by rewrite H3. }
  destruct H3 as [-> (F & _)]. unfold fail. by rewrite F.
Qed.

(** At most the three tokens after the label are looked at. *)
Lemma read_tokens_take4 ts : read_tokens (take 4 ts) = read_tokens ts.
Proof.
  destruct ts as [|t0 [|t1 [|t2 [|t3 more]]]]; try done.
  unfold read_tokens, read_float. cbn [take next_field].
  repeat first
    [ done
    | progress cbn [next_field]
    | match goal with
      | |- context [extract_float ?t] => destruct (extract_float t) as [? ?]
      | |- context [convert_to_v ?x] => destruct (convert_to_v x) as [? []]
      | |- context [next_field ?p _] => is_var p; destruct p
      end ].
Qed.

Lemma same_fields_parse_line l1 l2 :
  same_fields l1 l2 -> parse_line l1 = parse_line l2.
Proof.
  unfold same_fields. intros H.
  by rewrite !parse_line_read_tokens, <- (read_tokens_take4 (tokens l1)), H,
             read_tokens_take4.
Qed.

(* ===================================================================== *)
(** * The loop, line by line *)
(* ===================================================================== *)

(** One iteration: the line is read as a record, which is stored. *)
Lemma loop_body_store input i st :
  loop_body input i st =
  subscript input i ≫= fun line =>
    match parse_line line with
    | None => Throws parse_failure
    | Some r => store i r st
    end.
Proof.
  unfold loop_body, store. destruct st as [atoms xyz].
  destruct (subscript input i) as [line| |]; [|done..]. rewrite !bind_returns.
  unfold parse_line.
  destruct (extract_record line) as [[[[iss a] x] y] z] eqn:E.
  destruct (fail iss) eqn:Hf; [done|].
  by destruct (extract_record_assigned _ _ _ _ _ _ E Hf) as (x' & y' & z' & -> & -> & ->).
Qed.

(** The loop sees a line through the record read from it only. *)
Lemma for_loop_records input1 input2 count :
  forall k st,
    (forall j, (j < count)%nat ->
       parse_line <$> input1 !! (k + j)%nat = parse_line <$> input2 !! (k + j)%nat) ->
    for_loop input1 count (Z.of_nat k) st = for_loop input2 count (Z.of_nat k) st.
Proof.
  induction count as [|count IH]; intros k st H; cbn [for_loop]; [done|].
  pose proof (H 0%nat) as H0. rewrite Nat.add_0_r in H0. specialize (H0 ltac:(lia)).
  rewrite !loop_body_store, !subscript_lookup.
  destruct (input1 !! k) as [l1|], (input2 !! k) as [l2|]; try done.
  cbn in H0. injection H0 as H0. rewrite !bind_returns, H0.
  destruct (parse_line l2) as [r|]; [|done].
  destruct (store (Z.of_nat k) r st) as [st'| |]; [|done..].
  rewrite !bind_returns. replace (Z.of_nat k + 1) with (Z.of_nat (S k)) by lia.
  apply IH. intros j Hj. rewrite Nat.add_succ_comm. apply H. lia.
Qed.

(* ===================================================================== *)
(** * The records of a call, further *)
(* ===================================================================== *)


Lemma collect_split input c1 c2 :
  forall i,
    collect input (c1 + c2) i =
    collect input c1 i ≫= fun rs1 =>
      collect input c2 (i + c1) ≫= fun rs2 => Returns (rs1 ++ rs2).
Proof.
  induction c1 as [|c1 IH]; intros i; cbn [Nat.add collect].
  - rewrite bind_returns, Nat.add_0_r. by destruct (collect input c2 i).
  - destruct (input !! i) as [line|]; [|done].
    destruct (parse_line line) as [r|]; [|done].
    rewrite IH, Nat.add_succ_comm.
    destruct (collect input c1 (S i)) as [rs1| |]; [|done..]. rewrite !bind_returns.
    by destruct (collect input c2 (i + S c1)).
Qed.

Lemma collect_shift input1 input2 count :
  forall i, collect (input1 ++ input2) count (length input1 + i) = collect input2 count i.
Proof.
  induction count as [|count IH]; intros i; cbn [collect]; [done|].
  rewrite lookup_app_r, Nat.add_comm, Nat.add_sub by lia.
  by rewrite (Nat.add_comm i), <- Nat.add_succ_r, IH.
Qed.

Lemma collect_within input1 input2 count :
  (count <= length input1)%nat ->
  collect (input1 ++ input2) count 0 = collect input1 count 0.
Proof.
  intros H. apply collect_ext. intros j Hj. apply lookup_app_l. lia.
Qed.

Lemma labels_of_app rs1 rs2 : labels_of (rs1 ++ rs2) = labels_of rs1 ++ labels_of rs2.
Proof. apply map_app. Qed.

Lemma coords_all_app rs1 rs2 : coords_all (rs1 ++ rs2) = coords_all rs1 ++ coords_all rs2.
Proof. apply flat_map_app. Qed.

Lemma signed_stops t r : signed t = true -> stops (t ++ r) = true.
Proof.
  destruct t as [|c t]; [done|]. cbn. intros [H|H]%orb_true_iff;
    apply is_char_eq in H as ->; reflexivity.
Qed.

Lemma read_float_token t r ts x :
  float_token t = Some x -> stops r = true ->
  read_float (t ++ r) ts = Some (x, r, ts).
Proof.
  intros Hx Hr. unfold read_float.
  assert (Hn : is_nil t = false).
  { destruct t; [|done]. by vm_compute in Hx. }
  destruct (extract_float_token t x r Hx Hr) as (xtrc & E & C).
  destruct t as [|c t]; [done|]. cbn [app next_field].
  change (c :: t ++ r) with ((c :: t) ++ r). by rewrite E, C.
Qed.

Lemma read_float_start t r ts x :
  float_token t = Some x -> stops r = true ->
  read_float [] ((t ++ r) :: ts) = Some (x, r, ts).
Proof.
  intros Hx Hr. pose proof (read_float_token t r ts x Hx Hr) as E.
  unfold read_float in *. destruct t as [|c t]; [by vm_compute in Hx|]. exact E.
Qed.

Lemma read_float_whole t ts x :
  float_token t = Some x -> read_float [] (t :: ts) = Some (x, [], ts).
Proof. intros Hx. rewrite <- (app_nil_r t) at 1. by apply read_float_start. Qed.

Lemma no_number_char_inv c :
  no_number_char c = true ->
  isdigit c = false /\ is_char "." c = false /\ is_exp_char c = false
  /\ is_char "+" c = false /\ is_char "-" c = false /\ is_char "0" c = false.
Proof. ascii_cases c; vm_compute; intuition congruence. Qed.

(** Where a number is expected, a character that starts none fails the
    extraction. *)
Lemma extract_float_no_number c junk :
  no_number_char c = true -> extract_float (c :: junk) = ([], c :: junk).
Proof.
  intros (Hd & Hdot & He & Hp & Hm & Hz)%no_number_char_inv.
  unfold extract_float. cbn [extract_sign]. rewrite Hp, Hm.
  cbn [leading_zeros]. rewrite Hdot, Hz. cbn [float_digits].
  by rewrite Hd, Hdot, He.
Qed.

Lemma read_float_no_number c junk ts :
  no_number_char c = true -> read_float (c :: junk) ts = None.
Proof.
  intros Hc. unfold read_float. cbn [next_field].
  by rewrite extract_float_no_number.
Qed.

Lemma read_float_start_no_number c junk ts :
  no_number_char c = true -> read_float [] ((c :: junk) :: ts) = None.
Proof.
  intros Hc. unfold read_float. cbn [next_field].
  by rewrite extract_float_no_number.
Qed.

Lemma no_number_stops c junk : no_number_char c = true -> stops (c :: junk) = true.
Proof. unfold no_number_char. cbn. by intros [[-> _]%andb_true_iff _]%andb_true_iff. Qed.

Lemma process_single_rejected line :
  parse_line line = None -> process_lines_with_atoms [line] 1 = Throws parse_failure.
Proof.
  intros Hp. rewrite process_collect by (vm_compute; discriminate).
  change (Z.to_nat 1) with 1%nat. cbn [collect lookup list_lookup]. by rewrite Hp.
Qed.

(* ===================================================================== *)
(** * What an extraction consumes *)
(* ===================================================================== *)


Lemma lower_marker_other c : is_exp_char c = false -> lower_marker c = c.
Proof. unfold lower_marker. by intros ->. Qed.

Lemma lower_marker_digits ds : all_digits ds = true -> map lower_marker ds = ds.
Proof.
  induction ds as [|d ds IH]; [done|]. cbn. intros [Hd Hds]%andb_true_iff.
  destruct (isdigit_chars _ Hd) as (_ & _ & _ & He & _).
  by rewrite lower_marker_other, IH.
Qed.















(* ===================================================================== *)
(** * Lines with one number to a token *)
(* ===================================================================== *)




(** Lines with and without a token that holds a number and more; of the
    former some are read as records and some are rejected. *)
Example number_and_more_lines :
  number_and_more (str "C 1-2-3") = true
  /\ number_and_more (str "C 1 2 3.0abc") = true
  /\ number_and_more (str "C 1e 2 3") = true
  /\ number_and_more (str "O 0.000 0.000") = false
  /\ number_and_more (str "C abc 1-2 3") = false
  /\ number_and_more (str "C 1 - 3") = false.
Proof. vm_compute. repeat split; reflexivity. Qed.

Example bare_marker_is_rejected :
  malformed (str "C 1e 2 3") = true /\ parse_line (str "C 1e 2 3") = None.
Proof. vm_compute. split; reflexivity. Qed.

(* ===================================================================== *)
(** * Defined behaviour, and what two calls then give *)
(* ===================================================================== *)





(* ===================================================================== *)
(** * The properties of the specification *)
(* ===================================================================== *)

(** The scenarios of the specification (section 8). *)
Example water_molecule :
  process_lines_with_atoms
    [str "O 0.000 0.000 0.000"; str "H 0.957 0.000 0.000"; str "H -0.240 0.927 0.000"] 3
  = Returns
      ([str "O"; str "H"; str "H"],
       [S754_zero false; S754_zero false; S754_zero false;
        S754_finite false 16055796 (-24); S754_zero false; S754_zero false;
        S754_finite true 16106127 (-26); S754_finite false 15552479 (-24);
        S754_zero false]).
Proof. vm_compute. reflexivity. Qed.

Example missing_coordinate :
  process_lines_with_atoms [str "O 0.000 0.000"] 1 = Throws parse_failure.
Proof. vm_compute. reflexivity. Qed.

(** A number beyond the range of [float] is rejected (DR 23). *)
Example overflow_is_rejected :
  process_lines_with_atoms [str "C 1e40 2.0 3.0"] 1 = Throws parse_failure
  /\ float_token (str "1e40") = None.
Proof. vm_compute. split; reflexivity. Qed.

(** C1, as amended.  For a count [n_atoms >= 0] whose triple is still an
    [int], and an input whose first [n_atoms] lines are well-formed, the
    call returns; [labels[i]] is the first token of [lines[i]], verbatim,
    and [coords[3i]], [coords[3i+1]], [coords[3i+2]] are its second,
    third and fourth token as floats.  The input order is kept: when the
    first [n_atoms] lines are rearranged by [p], so are the records. *)
Theorem well_formed_lines_are_parsed input n_atoms :
  0 <= n_atoms -> 3 * n_atoms <= INT_MAX ->
  (forall i, (i < Z.to_nat n_atoms)%nat ->
     exists line, input !! i = Some line /\ well_formed line = true) ->
  exists labels coords,
    process_lines_with_atoms input n_atoms = Returns (labels, coords)
    /\ (forall i line, (i < Z.to_nat n_atoms)%nat -> input !! i = Some line ->
          exists t0 t1 t2 t3 more x y z,
            tokens line = t0 :: t1 :: t2 :: t3 :: more
            /\ float_token t1 = Some x /\ float_token t2 = Some y
            /\ float_token t3 = Some z
            /\ labels !! i = Some t0
            /\ coords !! (3 * i)%nat = Some x
            /\ coords !! (3 * i + 1)%nat = Some y
            /\ coords !! (3 * i + 2)%nat = Some z)
    /\ (forall input' (p : nat -> nat),
          (forall j, (j < Z.to_nat n_atoms)%nat ->
             (p j < Z.to_nat n_atoms)%nat /\ input' !! j = input !! p j) ->
          exists labels' coords',
            process_lines_with_atoms input' n_atoms = Returns (labels', coords')
            /\ forall j, (j < Z.to_nat n_atoms)%nat ->
                 labels' !! j = labels !! p j
                 /\ coords' !! (3 * j)%nat = coords !! (3 * p j)%nat
                 /\ coords' !! (3 * j + 1)%nat = coords !! (3 * p j + 1)%nat
                 /\ coords' !! (3 * j + 2)%nat = coords !! (3 * p j + 2)%nat).
Proof.
  intros Hn Hmax Hwf.
  assert (Hrec : forall i line, (i < Z.to_nat n_atoms)%nat -> input !! i = Some line ->
            exists r, record_of_tokens line = Some r /\ parse_line line = Some r).
  { intros i line Hi Hl. destruct (Hwf i Hi) as (line' & Hl' & Hw).
    assert (line' = line) as -> by congruence.
    apply well_formed_record in Hw as [r Hr]. exists r.
    split; [done|]. by apply parse_line_record. }
  destruct (process_records input n_atoms Hn Hmax) as (rs & Hrs & Hlook).
  { intros i Hi. destruct (Hwf i Hi) as (line & Hl & _).
    destruct (Hrec i line Hi Hl) as (r & _ & Hp). by exists line, r. }
  exists (labels_of rs), (coords_all rs). split; [done|]. split.
  - intros i line Hi Hl.
    destruct (Hrec i line Hi Hl) as ([[[a x] y] z] & Hr & Hp).
    destruct (Hlook i line Hi Hl) as (r & Hp' & Hri).
    assert (r = (a, x, y, z)) as -> by congruence.
    apply record_of_tokens_inv in Hr as (t1 & t2 & t3 & more & Ht & Hx & Hy & Hz).
    exists a, t1, t2, t3, more, x, y, z.
    pose proof (labels_lookup _ _ _ Hri) as Hlab.
    pose proof (coords_lookup _ _ _ _ _ _ Hri) as (Hcx & Hcy & Hcz).
    done.
  - intros input' p Hp.
    destruct (process_records input' n_atoms Hn Hmax) as (rs' & Hrs' & Hlook').
    { intros j Hj. destruct (Hp j Hj) as [Hpj Hl'].
      destruct (Hwf (p j) Hpj) as (line & Hl & _).
      destruct (Hrec (p j) line Hpj Hl) as (r & _ & Hpl).
      exists line, r. split; [congruence|done]. }
    exists (labels_of rs'), (coords_all rs'). split; [done|].
    intros j Hj. destruct (Hp j Hj) as [Hpj Hl'].
    destruct (Hwf (p j) Hpj) as (line & Hl & _).
    destruct (Hlook (p j) line Hpj Hl) as ([[[a x] y] z] & Hp1 & Hr1).
    destruct (Hlook' j line Hj) as (r' & Hp2 & Hr2); [congruence|].
    assert (r' = (a, x, y, z)) as -> by congruence.
    rewrite (labels_lookup _ _ _ Hr1), (labels_lookup _ _ _ Hr2).
    destruct (coords_lookup _ _ _ _ _ _ Hr1) as (-> & -> & ->).
    destruct (coords_lookup _ _ _ _ _ _ Hr2) as (-> & -> & ->).
    done.
Qed.

(** C1, as amended, on two well-formed lines. *)
Lemma well_formed_lines_are_parsed_witness :
  exists labels coords,
    process_lines_with_atoms [str "O 0.5 -1.25 3e2"; str "H 1 2 3 extra"] 2
    = Returns (labels, coords).
Proof.
  destruct (well_formed_lines_are_parsed
              [str "O 0.5 -1.25 3e2"; str "H 1 2 3 extra"] 2)
    as (labels & coords & H & _).
  - vm_compute. discriminate.
  - vm_compute. discriminate.
  - intros [|[|i]] Hi.
    + eexists. split; reflexivity.
    + eexists. split; reflexivity.
    + vm_compute in Hi. lia.
  - by exists labels, coords.
Defined.

(** C1 as stated fails where [n_atoms * 3] overflows: with 715827883
    well-formed lines the size of [xyz] is no [int]. *)
Lemma count_triple_overflows :
  well_formed (str "C 1 2 3") = true
  /\ Z.of_nat (length (replicate (Z.to_nat 715827883) (str "C 1 2 3"))) = 715827883
  /\ process_lines_with_atoms (replicate (Z.to_nat 715827883) (str "C 1 2 3")) 715827883
     = Undefined signed_overflow
  /\ (forall r,
        process_lines_with_atoms (replicate (Z.to_nat 715827883) (str "C 1 2 3")) 715827883
        <> Returns r).
Proof.
  assert (H : process_lines_with_atoms
                (replicate (Z.to_nat 715827883) (str "C 1 2 3")) 715827883
              = Undefined signed_overflow).
  { apply process_overflow.
    - split; discriminate.
    - reflexivity. }
  split; [reflexivity|]. split; [|split; [done|]].
  - rewrite length_replicate. apply Z2Nat.id. discriminate.
  - intros r. by rewrite H.
Qed.

(** C2. Whenever the call returns for a count [n_atoms], [labels] has
    exactly [n_atoms] elements and [coords] exactly [3 * n_atoms]. *)
Theorem returned_lengths input n_atoms labels coords :
  process_lines_with_atoms input n_atoms = Returns (labels, coords) ->
  Z.of_nat (length labels) = n_atoms
  /\ Z.of_nat (length coords) = 3 * n_atoms.
Proof.
  intros H. destruct (process_returns_range _ _ _ H) as [Hn _].
  apply process_returns_records in H as (rs & Hc & -> & ->).
  apply collect_returns_inv in Hc as [Hlen _].
  rewrite length_labels_of, length_coords_all, Hlen. lia.
Qed.

(** C2 on two lines. *)
Lemma returned_lengths_witness :
  exists labels coords,
    process_lines_with_atoms [str "O 0.1 0.2 0.3"; str "H 1 2 3"] 2
    = Returns (labels, coords)
    /\ Z.of_nat (length labels) = 2 /\ Z.of_nat (length coords) = 3 * 2.
Proof.
  eexists _, _. split; [vm_compute; reflexivity|].
  apply (returned_lengths [str "O 0.1 0.2 0.3"; str "H 1 2 3"] 2).
  vm_compute. reflexivity.
Defined.




(** C4, as amended.  On an input with fewer than [n_atoms] lines
    ([3 * n_atoms] an [int]) the call throws the parse error when one of
    the lines that exist is rejected; when they are all read as records
    it goes on to read [input[size]], past the end, which is undefined
    behaviour.  No error of its own is raised for the short input. *)
Theorem short_input_is_not_checked input n_atoms :
  Z.of_nat (length input) < n_atoms -> 3 * n_atoms <= INT_MAX ->
  (process_lines_with_atoms input n_atoms = Throws parse_failure
   /\ exists i line, input !! i = Some line /\ parse_line line = None)
  \/ (process_lines_with_atoms input n_atoms = Undefined subscript_out_of_range
      /\ forall i line, input !! i = Some line -> parse_line line <> None).
Proof.
  intros Hlen Hmax. rewrite process_collect by lia.
  destruct (collect_short input (Z.to_nat n_atoms) 0) as [[-> H]|[-> H]]; [lia..| |].
  - by left.
  - right. split; [done|]. intros i line. apply H. lia.
Qed.

(** C4, as amended: one line where two are asked for. *)
Lemma short_input_is_not_checked_witness :
  process_lines_with_atoms [str "O 1 2 3"] 2 = Undefined subscript_out_of_range.
Proof.
  destruct (short_input_is_not_checked [str "O 1 2 3"] 2) as [[H _]|[H _]].
  - reflexivity.
  - vm_compute. discriminate.
  - vm_compute in H. discriminate H.
  - exact H.
Defined.

(** C4 as stated fails: no bound is checked, and the read of [input[0]]
    of an empty input is out of range. *)
Lemma empty_input_is_read_out_of_range :
  Z.of_nat (length ([] : list (list ascii))) < 1
  /\ process_lines_with_atoms [] 1 = Undefined subscript_out_of_range
  /\ (forall e, process_lines_with_atoms [] 1 <> Throws e).
Proof. repeat split; done. Qed.

(** C5. A line with more than four tokens whose first four are a label
    and three floats is read as these four fields.  What follows the
    fourth token is ignored: it does not appear in the result, and any
    line with the same first four tokens is read as the same record. *)
Theorem trailing_tokens_are_ignored line t0 t1 t2 t3 more x y z :
  tokens line = t0 :: t1 :: t2 :: t3 :: more -> more <> [] ->
  float_token t1 = Some x -> float_token t2 = Some y -> float_token t3 = Some z ->
  parse_line line = Some (t0, x, y, z)
  /\ (forall line' more',
        tokens line' = t0 :: t1 :: t2 :: t3 :: more' ->
        parse_line line' = parse_line line)
  /\ process_lines_with_atoms [line] 1 = Returns ([t0], [x; y; z])
  /\ forall input n_atoms i labels coords,
       input !! i = Some line -> (i < Z.to_nat n_atoms)%nat ->
       process_lines_with_atoms input n_atoms = Returns (labels, coords) ->
       labels !! i = Some t0
       /\ coords !! (3 * i)%nat = Some x
       /\ coords !! (3 * i + 1)%nat = Some y
       /\ coords !! (3 * i + 2)%nat = Some z.
Proof.
  intros Ht _ Hx Hy Hz.
  assert (Hany : forall line' more', tokens line' = t0 :: t1 :: t2 :: t3 :: more' ->
                   parse_line line' = Some (t0, x, y, z)).
  { intros line' more' Ht'. rewrite <- (app_nil_r t3) in Ht'.
    by eapply parse_line_tokens. }
  pose proof (Hany line more Ht) as Hp.
  split; [done|]. split; [|split].
  - intros line' more' Ht'. by rewrite Hp, (Hany line' more').
  - by apply process_single.
  - intros input n i labels coords Hl Hi H.
    apply process_returns_records in H as (rs & Hc & -> & ->).
    apply collect_returns_inv in Hc as [Hlen Hrs].
    destruct (lookup_lt_is_Some_2 rs i) as [r Hr]; [lia|].
    destruct (Hrs _ _ Hr) as (line' & Hl' & Hp'). cbn [Nat.add] in Hl'.
    assert (line' = line) as -> by congruence.
    assert (r = (t0, x, y, z)) as -> by congruence.
    pose proof (labels_lookup _ _ _ Hr).
    pose proof (coords_lookup _ _ _ _ _ _ Hr) as (? & ? & ?). done.
Qed.

(** C5 on the line of the specification. *)
Lemma trailing_tokens_are_ignored_witness :
  process_lines_with_atoms [str "C 1.0 2.0 3.0 extra"] 1
  = Returns ([str "C"],
             [S754_finite false 8388608 (-23); S754_finite false 8388608 (-22);
              S754_finite false 12582912 (-22)]).
Proof.
  refine (proj1 (proj2 (proj2
    (trailing_tokens_are_ignored (str "C 1.0 2.0 3.0 extra")
       (str "C") (str "1.0") (str "2.0") (str "3.0") [str "extra"]
       _ _ _ _ _ _ _ _)))).
  - reflexivity.
  - discriminate.
  - reflexivity.
  - reflexivity.
  - reflexivity.
Defined.

(** C6. With a count of zero the call returns two empty sequences
    whatever the input is, the empty input included: no line is read. *)
Theorem zero_count_returns_empty input :
  process_lines_with_atoms input 0 = Returns ([], []).
Proof. reflexivity. Qed.

(** C7. Two inputs that agree on their first [n_atoms] entries give the
    same outcome, result or error: entries from index [n_atoms] on are
    never read. *)
Theorem later_lines_have_no_effect input1 input2 n_atoms :
  n_atoms <= Z.of_nat (length input1) -> n_atoms <= Z.of_nat (length input2) ->
  take (Z.to_nat n_atoms) input1 = take (Z.to_nat n_atoms) input2 ->
  process_lines_with_atoms input1 n_atoms = process_lines_with_atoms input2 n_atoms.
Proof.
  intros _ _ H. unfold process_lines_with_atoms.
  destruct (vector_ctor sizeof_string _ _) as [atoms| |]; [|done..].
  rewrite !bind_returns.
  destruct (int_mul n_atoms 3) as [n3| |]; [|done..]. rewrite !bind_returns.
  destruct (vector_ctor sizeof_float _ _) as [xyz| |]; [|done..].
  rewrite !bind_returns.
  apply (for_loop_ext input1 input2 (Z.to_nat n_atoms) 0).
  intros j Hj. cbn [Nat.add].
  by rewrite <- (lookup_take_lt input1 (Z.to_nat n_atoms) j),
             <- (lookup_take_lt input2 (Z.to_nat n_atoms) j), H.
Qed.

(** C7 on two inputs that differ from the third line on. *)
Lemma later_lines_have_no_effect_witness :
  process_lines_with_atoms [str "O 1 2 3"; str "H 4 5 6"; str "junk"] 2
  = process_lines_with_atoms [str "O 1 2 3"; str "H 4 5 6"; str "X 7 8 9"; str "Y"] 2.
Proof.
  apply (later_lines_have_no_effect
           [str "O 1 2 3"; str "H 4 5 6"; str "junk"]
           [str "O 1 2 3"; str "H 4 5 6"; str "X 7 8 9"; str "Y"] 2).
  - vm_compute. discriminate.
  - vm_compute. discriminate.
  - reflexivity.
Defined.




(** C9. A negative count is not checked for: constructing the first
    output container from it throws [std::length_error], whatever the
    input, before any line is read. *)
Theorem negative_count_throws input n_atoms :
  INT_MIN <= n_atoms -> n_atoms < 0 ->
  process_lines_with_atoms input n_atoms = Throws vector_too_long.
Proof. apply process_negative. Qed.

(** C9 at a count of -1. *)
Lemma negative_count_throws_witness :
  process_lines_with_atoms [str "O 1 2 3"] (-1) = Throws vector_too_long.
Proof.
  apply (negative_count_throws [str "O 1 2 3"] (-1)).
  - vm_compute. discriminate.
  - reflexivity.
Defined.

(** C10, as amended.  Coordinates are read by stream extraction, not
    token by token: when the fourth token is a float followed at once by
    a character that cannot continue a number, the token is no float,
    the line is not well-formed, and yet the call returns the number
    extracted. *)
Theorem trailing_characters_are_accepted line t0 t1 t2 t3 c junk more x y z :
  tokens line = t0 :: t1 :: t2 :: (t3 ++ c :: junk) :: more ->
  stop_char c = true ->
  float_token t1 = Some x -> float_token t2 = Some y -> float_token t3 = Some z ->
  float_token (t3 ++ c :: junk) = None
  /\ well_formed line = false
  /\ process_lines_with_atoms [line] 1 = Returns ([t0], [x; y; z]).
Proof.
  intros Ht Hc Hx Hy Hz.
  pose proof (float_token_junk t3 z c junk Hz Hc) as Hnone.
  split; [done|]. split.
  - unfold well_formed, record_of_tokens. rewrite Ht, Hx, Hy, Hnone. done.
  - apply process_single. by eapply parse_line_tokens.
Qed.

(** C10, as amended, on a fourth token [3.0abc]. *)
Lemma trailing_characters_are_accepted_witness :
  float_token (str "3.0abc") = None
  /\ well_formed (str "C 1.0 2.0 3.0abc") = false
  /\ process_lines_with_atoms [str "C 1.0 2.0 3.0abc"] 1
     = Returns ([str "C"],
                [S754_finite false 8388608 (-23); S754_finite false 8388608 (-22);
                 S754_finite false 12582912 (-22)]).
Proof.
  apply (trailing_characters_are_accepted (str "C 1.0 2.0 3.0abc")
           (str "C") (str "1.0") (str "2.0") (str "3.0") "a"%char (str "bc") []).
  - reflexivity.
  - reflexivity.
  - reflexivity.
  - reflexivity.
  - reflexivity.
Defined.

(** C10 as stated fails on the first of its examples: the extraction of
    the host library accepts neither [inf] nor [nan], whose first
    character can start no number. *)
Lemma inf_and_nan_are_rejected :
  process_lines_with_atoms [str "C 1.0 2.0 inf"] 1 = Throws parse_failure
  /\ process_lines_with_atoms [str "C 1.0 2.0 nan"] 1 = Throws parse_failure
  /\ process_lines_with_atoms [str "C inf 2.0 3.0"] 1 = Throws parse_failure
  /\ process_lines_with_atoms [str "C 1.0 nan 3.0"] 1 = Throws parse_failure.
Proof. vm_compute. repeat split; reflexivity. Qed.

(* ===================================================================== *)
(** * Further properties of [process_lines_with_atoms] *)
(* ===================================================================== *)


(** X2. No coordinate that is returned is a NaN or an infinity. *)
Theorem returned_coordinates_are_finite input n_atoms labels coords :
  process_lines_with_atoms input n_atoms = Returns (labels, coords) ->
  Forall (fun v => v <> S754_nan /\ forall s, v <> S754_infinity s) coords.
Proof.
  intros H. apply process_returns_records in H as (rs & Hc & -> & ->).
  eapply Forall_impl; [by eapply collect_finite|].
  intros v Hv. by destruct v.
Qed.

(** X2 on the water molecule of the specification. *)
Lemma returned_coordinates_are_finite_witness :
  exists labels coords,
    process_lines_with_atoms
      [str "O 0.000 0.000 0.000"; str "H 0.957 0.000 0.000"; str "H -0.240 0.927 0.000"] 3
    = Returns (labels, coords)
    /\ Forall (fun v => v <> S754_nan /\ forall s, v <> S754_infinity s) coords.
Proof.
  eexists _, _. split; [vm_compute; reflexivity|].
  apply (returned_coordinates_are_finite
           [str "O 0.000 0.000 0.000"; str "H 0.957 0.000 0.000"; str "H -0.240 0.927 0.000"] 3
           [str "O"; str "H"; str "H"]).
  vm_compute. reflexivity.
Defined.

(** X3. Every label that is returned is the first token of its line,
    whatever the rest of the line is: it is not empty and holds no white
    space. *)
Theorem returned_labels_are_first_tokens input n_atoms labels coords i line :
  process_lines_with_atoms input n_atoms = Returns (labels, coords) ->
  (i < Z.to_nat n_atoms)%nat -> input !! i = Some line ->
  exists label,
    labels !! i = Some label /\ head (tokens line) = Some label
    /\ label <> [] /\ nonspace label = true.
Proof.
  intros H Hi Hl. apply process_returns_records in H as (rs & Hc & -> & ->).
  apply collect_returns_inv in Hc as [Hlen Hrs].
  destruct (lookup_lt_is_Some_2 rs i) as [[[[a x] y] z] Hr]; [lia|].
  destruct (Hrs _ _ Hr) as (line' & Hl' & Hp). cbn [Nat.add] in Hl'.
  assert (line' = line) as -> by congruence.
  exists a. split; [by apply (labels_lookup _ _ _ Hr)|].
  rewrite parse_line_read_tokens in Hp. unfold read_tokens in Hp.
  destruct (tokens line) as [|t0 ts0] eqn:Ht; [done|].
  assert (t0 = a) as ->.
  { destruct (read_float [] ts0) as [[[? p1] ts1]|]; [|done].
    destruct (read_float p1 ts1) as [[[? p2] ts2]|]; [|done].
    destruct (read_float p2 ts2) as [[[? ?] ?]|]; [|done]. congruence. }
  apply tokens_cons_words in Ht as (r & _ & Hn & Hns & _).
  split; [done|]. split; [|done]. by destruct a.
Qed.

(** X3 on a line whose label is followed by numbers that touch. *)
Lemma returned_labels_are_first_tokens_witness :
  exists label,
    [str "Cl"] !! 0%nat = Some label
    /\ head (tokens (str "  Cl 1.5-2.5 3")) = Some label
    /\ label <> [] /\ nonspace label = true.
Proof.
  apply (returned_labels_are_first_tokens [str "  Cl 1.5-2.5 3"] 1 [str "Cl"]
           [S754_finite false 12582912 (-23); S754_finite true 10485760 (-22);
            S754_finite false 12582912 (-22)] 0 (str "  Cl 1.5-2.5 3")).
  - vm_compute. reflexivity.
  - vm_compute. lia.
  - reflexivity.
Defined.

(** X4. The outcome depends on each of the first [n_atoms] lines through
    its first four tokens only: which white space separates the tokens,
    how much of it, white space before the first token and after the
    last, and whatever follows the fourth token change nothing, be the
    lines well-formed or not. *)
Theorem only_the_first_four_tokens_matter input1 input2 n_atoms :
  Forall2 same_fields (take (Z.to_nat n_atoms) input1) (take (Z.to_nat n_atoms) input2) ->
  process_lines_with_atoms input1 n_atoms = process_lines_with_atoms input2 n_atoms.
Proof.
  intros H. unfold process_lines_with_atoms.
  destruct (vector_ctor sizeof_string _ _) as [atoms| |]; [|done..].
  rewrite !bind_returns.
  destruct (int_mul n_atoms 3) as [n3| |]; [|done..]. rewrite !bind_returns.
  destruct (vector_ctor sizeof_float _ _) as [xyz| |]; [|done..].
  rewrite !bind_returns.
  apply (for_loop_records input1 input2 (Z.to_nat n_atoms) 0).
  intros j Hj. cbn [Nat.add].
  pose proof (proj1 (Forall2_lookup _ _ _) H j) as Hj'.
  rewrite !lookup_take_lt in Hj' by done.
  destruct Hj' as [l1 l2 Hsame|]; [|done]. cbn.
  by rewrite (same_fields_parse_line l1 l2).
Qed.

(** X4 on two inputs that differ in white space and after the fourth
    token, with a line that is rejected in both. *)
Lemma only_the_first_four_tokens_matter_witness :
  process_lines_with_atoms [str "O 1 2 3"; str "H 4 5"] 2
  = process_lines_with_atoms [str "  O   1 2  3 # oxygen"; str " H 4 5  "; str "junk"] 2.
Proof.
  apply (only_the_first_four_tokens_matter
           [str "O 1 2 3"; str "H 4 5"]
           [str "  O   1 2  3 # oxygen"; str " H 4 5  "; str "junk"] 2).
  repeat constructor.
Defined.

(** X5. Frames compose: on an input made of two parts, the first of
    exactly [n1] lines, the call with [n1 + n2] is the call on the first
    part with [n1] followed by the call on the second with [n2]; it
    returns the two results appended, and otherwise ends the way the
    first of the two that does not return ends. *)
Theorem calls_on_parts_compose input1 input2 n1 n2 :
  n1 = Z.of_nat (length input1) -> 0 <= n2 -> 3 * (n1 + n2) <= INT_MAX ->
  process_lines_with_atoms (input1 ++ input2) (n1 + n2) =
  process_lines_with_atoms input1 n1 ≫= fun '(labels1, coords1) =>
    process_lines_with_atoms input2 n2 ≫= fun '(labels2, coords2) =>
      Returns (labels1 ++ labels2, coords1 ++ coords2).
Proof.
  intros -> Hn2 Hmax. rewrite !process_collect by lia.
  replace (Z.to_nat (Z.of_nat (length input1) + n2))
    with (length input1 + Z.to_nat n2)%nat by lia.
  rewrite collect_split, Nat2Z.id, collect_within by lia. cbn [Nat.add].
  destruct (collect input1 (length input1) 0) as [rs1| |]; [|done..].
  rewrite !bind_returns.
  rewrite <- (Nat.add_0_r (length input1)), collect_shift.
  destruct (collect input2 (Z.to_nat n2) 0) as [rs2| |]; [|done..].
  rewrite !bind_returns. by rewrite labels_of_app, coords_all_app.
Qed.

(** X5 on two frames of one line and of two. *)
Lemma calls_on_parts_compose_witness :
  process_lines_with_atoms ([str "O 1 2 3"] ++ [str "H 4 5 6"; str "H 7 8 9"]) (1 + 2) =
  process_lines_with_atoms [str "O 1 2 3"] 1 ≫= fun '(labels1, coords1) =>
    process_lines_with_atoms [str "H 4 5 6"; str "H 7 8 9"] 2 ≫= fun '(labels2, coords2) =>
      Returns (labels1 ++ labels2, coords1 ++ coords2).
Proof.
  apply (calls_on_parts_compose [str "O 1 2 3"] [str "H 4 5 6"; str "H 7 8 9"] 1 2).
  - reflexivity.
  - vm_compute. discriminate.
  - vm_compute. discriminate.
Defined.

(** X6. Asking for fewer lines gives the beginning of the result: when
    the call returns for [n_atoms], it returns for every [0 <= m <=
    n_atoms] the first [m] labels and the first [3 * m] coordinates. *)
Theorem fewer_lines_give_a_prefix input n_atoms m labels coords :
  process_lines_with_atoms input n_atoms = Returns (labels, coords) ->
  0 <= m <= n_atoms ->
  process_lines_with_atoms input m
  = Returns (take (Z.to_nat m) labels, take (3 * Z.to_nat m) coords).
Proof.
  intros H Hm. destruct (process_returns_range _ _ _ H) as [Hn Hmax].
  apply process_returns_records in H as (rs & Hc & -> & ->).
  rewrite process_collect by lia.
  replace (Z.to_nat n_atoms) with (Z.to_nat m + Z.to_nat (n_atoms - m))%nat in Hc by lia.
  rewrite collect_split in Hc.
  destruct (collect input (Z.to_nat m) 0) as [rs1| |] eqn:E1; [|done..].
  rewrite bind_returns in Hc.
  destruct (collect input _ (0 + Z.to_nat m)) as [rs2| |]; [|done..].
  rewrite bind_returns in Hc. injection Hc as <-.
  apply collect_returns_inv in E1 as [Hlen _].
  rewrite bind_returns, labels_of_app, coords_all_app.
  rewrite (take_app_length' (labels_of rs1)) by (by rewrite length_labels_of).
  by rewrite (take_app_length' (coords_all rs1)) by (rewrite length_coords_all; lia).
Qed.

(** X6 on three lines, of which two are asked for. *)
Lemma fewer_lines_give_a_prefix_witness :
  process_lines_with_atoms [str "O 1 2 3"; str "H 4 5 6"; str "H 7 8 9"] 2
  = Returns ([str "O"; str "H"],
             [S754_finite false 8388608 (-23); S754_finite false 8388608 (-22);
              S754_finite false 12582912 (-22); S754_finite false 8388608 (-21);
              S754_finite false 10485760 (-21); S754_finite false 12582912 (-21)]).
Proof.
  refine (fewer_lines_give_a_prefix [str "O 1 2 3"; str "H 4 5 6"; str "H 7 8 9"] 3 2
            [str "O"; str "H"; str "H"]
            [S754_finite false 8388608 (-23); S754_finite false 8388608 (-22);
             S754_finite false 12582912 (-22); S754_finite false 8388608 (-21);
             S754_finite false 10485760 (-21); S754_finite false 12582912 (-21);
             S754_finite false 14680064 (-21); S754_finite false 8388608 (-20);
             S754_finite false 9437184 (-20)] _ _).
  - vm_compute. reflexivity.
  - vm_compute. split; discriminate.
Defined.

(** X7. For a count that is an [int], behaviour is undefined in two
    cases only: the triple of the count overflows, or the input has
    fewer lines than the count and [input[i]] is read past its end.  No
    element of [atoms] or [xyz] is accessed out of range and no [float]
    is read before it was assigned; with [0 <= n_atoms <= size of the
    input] and [3 * n_atoms] an [int] the call is defined. *)
Theorem undefined_behaviour_cases input n_atoms u :
  INT_MIN <= n_atoms <= INT_MAX ->
  process_lines_with_atoms input n_atoms = Undefined u ->
  (u = signed_overflow /\ INT_MAX < 3 * n_atoms)
  \/ (u = subscript_out_of_range /\ 0 <= n_atoms /\ 3 * n_atoms <= INT_MAX
      /\ Z.of_nat (length input) < n_atoms).
Proof.
  intros Hint H.
  destruct (Z_lt_dec n_atoms 0) as [Hneg|Hpos].
  { by rewrite process_negative in H by lia. }
  destruct (Z_le_dec (3 * n_atoms) INT_MAX) as [Hmax|Hmax].
  - right. rewrite process_collect in H by lia.
    destruct (collect input (Z.to_nat n_atoms) 0) as [rs|e|u'] eqn:Hc; [done..|].
    cbn in H. injection H as <-.
    apply collect_undefined_inv in Hc as [-> Hlen]. repeat split; lia.
  - left. rewrite process_overflow in H by lia. injection H as <-. split; [done|lia].
Qed.

(** X7 on an input of one line where two are asked for. *)
Lemma undefined_behaviour_cases_witness :
  (subscript_out_of_range = signed_overflow /\ INT_MAX < 3 * 2)
  \/ (subscript_out_of_range = subscript_out_of_range /\ 0 <= 2 /\ 3 * 2 <= INT_MAX
      /\ Z.of_nat (length [str "O 1 2 3"]) < 2).
Proof.
  apply (undefined_behaviour_cases [str "O 1 2 3"] 2 subscript_out_of_range).
  - vm_compute. split; discriminate.
  - vm_compute. reflexivity.
Defined.



(** X9. Numbers need no white space between them when a sign starts the
    next one: a line whose second token is three floats written one
    after the other, the second and the third with a sign, is read as
    the label and these three numbers (columns of a table that touch,
    as in [C 1.000-2.000-3.000]). *)
Theorem a_sign_starts_the_next_number line t0 t1 t2 t3 more x y z :
  tokens line = t0 :: (t1 ++ t2 ++ t3) :: more ->
  signed t2 = true -> signed t3 = true ->
  float_token t1 = Some x -> float_token t2 = Some y -> float_token t3 = Some z ->
  parse_line line = Some (t0, x, y, z)
  /\ process_lines_with_atoms [line] 1 = Returns ([t0], [x; y; z]).
Proof.
  intros Ht S2 S3 Hx Hy Hz.
  assert (Hp : parse_line line = Some (t0, x, y, z)).
  { rewrite parse_line_read_tokens, Ht. unfold read_tokens.
    assert (E1 : read_float [] ((t1 ++ t2 ++ t3) :: more) = Some (x, t2 ++ t3, more)).
    { pose proof (read_float_token t1 (t2 ++ t3) more x Hx (signed_stops _ _ S2)) as E.
      unfold read_float in *. destruct t1 as [|c t1]; [by vm_compute in Hx|].
      exact E. }
    rewrite E1, (read_float_token t2 t3 more y Hy).
    2: { rewrite <- (app_nil_r t3). by apply signed_stops. }
    rewrite <- (app_nil_r t3) at 1. by rewrite (read_float_token t3 [] more z Hz). }
  split; [done|]. by apply process_single.
Qed.

(** X9 on a line of two tokens. *)
Lemma a_sign_starts_the_next_number_witness :
  process_lines_with_atoms [str "C 1.000-2.000+3.5e1 rest"] 1
  = Returns ([str "C"],
             [S754_finite false 8388608 (-23); S754_finite true 8388608 (-22);
              S754_finite false 9175040 (-18)]).
Proof.
  refine (proj2 (a_sign_starts_the_next_number (str "C 1.000-2.000+3.5e1 rest")
            (str "C") (str "1.000") (str "-2.000") (str "+3.5e1") [str "rest"]
            _ _ _ _ _ _ _ _ _)).
  - reflexivity.
  - reflexivity.
  - reflexivity.
  - vm_compute. reflexivity.
  - vm_compute. reflexivity.
  - vm_compute. reflexivity.
Defined.

(** X10. A character that can neither start nor continue a number (no
    digit, sign, point or exponent marker), met where the next number is
    expected, makes the call fail: at the start of the second, third or
    fourth token when floats were read from the tokens before it, or
    right behind the first or second number in its token.  Only behind
    the third number is it passed over. *)
Theorem no_number_where_one_is_expected line t0 pre t c junk more :
  tokens line = t0 :: pre ++ (t ++ c :: junk) :: more ->
  Forall (fun a => is_Some (float_token a)) pre ->
  t = [] \/ is_Some (float_token t) ->
  (length pre + (if is_nil t then 0 else 1) <= 2)%nat ->
  no_number_char c = true ->
  parse_line line = None
  /\ process_lines_with_atoms [line] 1 = Throws parse_failure.
Proof.
  intros Ht Hpre Htok Hlen Hc.
  assert (Hp : parse_line line = None).
  { rewrite parse_line_read_tokens, Ht. unfold read_tokens.
    pose proof (no_number_stops c junk Hc) as Hs.
    assert (Hlast : forall ts,
              read_float [] ((t ++ c :: junk) :: ts) = None
              \/ exists v, read_float [] ((t ++ c :: junk) :: ts) = Some (v, c :: junk, ts)
                           /\ is_nil t = false).
    { intros ts. destruct Htok as [->|[v Hv]].
      - left. by apply read_float_start_no_number.
      - right. exists v. split; [by apply read_float_start|].
        destruct t; [by vm_compute in Hv|done]. }
    destruct pre as [|a [|b [|d pre]]]; cbn [app length] in *.
    - destruct (Hlast more) as [->|(v & -> & _)]; [done|].
      by rewrite read_float_no_number.
    - apply Forall_cons in Hpre as [[x Hx] _].
      rewrite (read_float_whole a _ x Hx).
      destruct (Hlast more) as [->|(v & -> & _)]; [done|].
      by rewrite read_float_no_number.
    - apply Forall_cons in Hpre as [[x Hx] [[y Hy] _]%Forall_cons].
      rewrite (read_float_whole a _ x Hx), (read_float_whole b _ y Hy).
      destruct (Hlast more) as [->|(v & _ & Hn)]; [done|].
      rewrite Hn in Hlen. lia.
    - destruct (is_nil t); lia. }
  split; [done|]. by apply process_single_rejected.
Qed.

(** X10 on a unit written behind the second number. *)
Lemma no_number_where_one_is_expected_witness :
  process_lines_with_atoms [str "C 1.0 2.0nm 3.0"] 1 = Throws parse_failure.
Proof.
  refine (proj2 (no_number_where_one_is_expected (str "C 1.0 2.0nm 3.0")
            (str "C") [str "1.0"] (str "2.0") "n"%char (str "m") [str "3.0"]
            _ _ _ _ _)).
  - reflexivity.
  - repeat constructor. by eexists.
  - right. by eexists.
  - vm_compute. lia.
  - reflexivity.
Defined.
